(** * The [command] check of maddy: a shallow embedding of
      [check/command/command.go]

    The check runs an external program at one stage of an inbound mail
    transaction and turns the way the program ended into a decision for
    the pipeline.  The development follows the Go file top to bottom:

    - Go strings are byte strings ([string]); [int] values are [Z] (the
      file compares and stores them, it does no arithmetic on them);
      [map[int]check.FailAction] and [map[string]interface{}] are [gmap]s;
    - the regular expression [placeholderRe] and
      [Regexp.ReplaceAllStringFunc] are embedded as a scanner over bytes;
    - the operating system is a parameter: an oracle says how the child
      started by [exec.Command] behaves, and every call of [cmd.Start] is
      logged, so that "no process is spawned" is a statement about the log;
    - [*state] is mutated in place by the stage methods; here each method
      returns the state it leaves behind. *)

From Stdlib Require Import ZArith Ascii String.
From stdpp Require Import base option list gmap strings.

Local Open Scope Z_scope.

(** ** Byte strings *)

Module Str.

(** [strings.Join(elems, sep)]. *)
Fixpoint Join (elems : list string) (sep : string) : string :=
  match elems with
  | [] => ""
  | [e] => e
  | e :: rest => e +:+ sep +:+ Join rest sep
  end.

End Str.

(** ** [placeholderRe] and [ReplaceAllStringFunc]

    [placeholderRe = regexp.MustCompile(`{[a-zA-Z0-9_]+?}`)]: an opening
    brace, one or more bytes of the class, lazily, and a closing brace.
    Neither brace is in the class, so at a given start there is at most one
    match: the brace, the whole run of class bytes, the closing brace.  The
    pattern is pure ASCII and Go copies the text between matches unchanged,
    so scanning bytes is the same as scanning runes. *)

Module Re.

(** The class [[a-zA-Z0-9_]]. *)
Definition is_word (c : ascii) : bool :=
  let n := nat_of_ascii c in
  ((97 <=? n) && (n <=? 122) || (65 <=? n) && (n <=? 90)
   || (48 <=? n) && (n <=? 57) || (n =? 95))%nat.

Definition is_close (c : ascii) : bool := Ascii.eqb c "}".
Definition is_open (c : ascii) : bool := Ascii.eqb c "{".

(** The lazy tail [[a-zA-Z0-9_]*?}] once one class byte has been read:
    stop at the first closing brace, go on over class bytes, fail on
    anything else.  Returns the class bytes read and the text after the
    closing brace. *)
Fixpoint lazy_tail (s : string) : option (string * string) :=
  match s with
  | "" => None
  | String c t =>
      if is_close c then Some ("", t)
      else if is_word c then
        match lazy_tail t with
        | Some (w, rest) => Some (String c w, rest)
        | None => None
        end
      else None
  end.

(** A match of [placeholderRe] anchored at the first byte of [s]: the
    matched text and what follows it. *)
Definition match_here (s : string) : option (string * string) :=
  match s with
  | String o (String c t) =>
      if is_open o && is_word c then
        match lazy_tail t with
        | Some (w, rest) => Some (String o (String c (w +:+ "}")), rest)
        | None => None
        end
      else None
  | _ => None
  end.

(** [ReplaceAllStringFunc]: matches are found leftmost first and do not
    overlap; [repl] gets the matched text; everything else is copied.
    [skip] counts the bytes of the current match that are still to be
    passed over. *)
Fixpoint replace_from (repl : string → string) (skip : nat) (s : string)
  : string :=
  match s with
  | "" => ""
  | String c t =>
      match skip with
      | S k => replace_from repl k t
      | O =>
          match match_here s with
          | Some (m, _) =>
              repl m +:+ replace_from repl (Nat.pred (String.length m)) t
          | None => String c (replace_from repl 0 t)
          end
      end
  end.

Definition ReplaceAllStringFunc (src : string) (repl : string → string)
  : string :=
  replace_from repl 0 src.

(** [name] is a non-empty run of class bytes: the inside of a token. *)
Fixpoint all_word (s : string) : bool :=
  match s with
  | "" => true
  | String c t => is_word c && all_word t
  end.

Definition is_name (n : string) : bool :=
  match n with
  | "" => false
  | _ => all_word n
  end.

(** The token with inside [n]. *)
Definition token (n : string) : string := "{" +:+ n +:+ "}".

(** [s] holds a match of the expression somewhere. *)
Definition has_match (s : string) : Prop :=
  ∃ a n b, is_name n = true ∧ s = a +:+ token n +:+ b.

(** [placeholderRe.MatchString(s)]: a match at some start. *)
Fixpoint MatchString (s : string) : bool :=
  match s with
  | "" => false
  | String _ t =>
      match match_here s with
      | Some _ => true
      | None => MatchString t
      end
  end.

End Re.

(** ** Values of the Go runtime and of the packages the file imports *)

(** [os.ProcessState] of a child that has been waited for: it exited with a
    status, or a signal ended it. *)
Inductive ProcessState :=
  | Exited (code : Z)
  | Signaled (sig : Z).

(** [ProcessState.ExitCode]: "the exit code of the exited process, or
    -1 if the process hasn't exited or was terminated by a signal". *)
Definition ExitCode (ps : ProcessState) : Z :=
  match ps with
  | Exited code => code
  | Signaled _ => -1
  end.

(** [ProcessState.Success]. *)
Definition Success (ps : ProcessState) : bool := ExitCode ps =? 0.

(** The [error] values the file handles: [*exec.ExitError] (which wraps the
    process state), [io.EOF], and every other error. *)
Inductive error :=
  | ExitError (ps : ProcessState)
  | EOF
  | Failure (msg : string).

(** [errors.Is(err, io.EOF)]. *)
Definition is_EOF (err : error) : bool :=
  match err with
  | EOF => true
  | _ => false
  end.

(** What waiting for the child gives: its final state, or a failure of the
    wait itself or of the copying of its standard input. *)
Inductive WaitOutcome :=
  | Reaped (ps : ProcessState)
  | WaitFailed (msg : string).

(** [exec.Cmd.Wait]: [nil] when the command ran, its input was copied and
    it exited with status 0; an [*exec.ExitError] when it did not complete
    successfully; another error for I/O problems. *)
Definition cmd_Wait (o : WaitOutcome) : option error :=
  match o with
  | Reaped ps => if Success ps then None else Some (ExitError ps)
  | WaitFailed msg => Some (Failure msg)
  end.

Module textproto.

(** [textproto.Header]: the fields in order. *)
Definition Header : Type := list (string * string).

End textproto.

(** [buffer.Buffer]: what [Open] gives. *)
Inductive Buffer :=
  | Readable (content : string)
  | Unreadable (err : error).

Definition Open (b : Buffer) : string + error :=
  match b with
  | Readable content => inl content
  | Unreadable err => inr err
  end.

Module exterrors.

(** A value stored in [Misc map[string]interface{}]. *)
Inductive MiscVal :=
  | MStr (s : string)
  | MInt (n : Z).

#[global] Instance MiscVal_eq_dec : EqDecision MiscVal.
Proof. solve_decision. Defined.

(** [exterrors.EnhancedCode], an array of three [int]. *)
Definition enhanced : Type := Z * Z * Z.

(** [exterrors.SMTPError], with the fields the file sets.  A field left
    out of a composite literal has its zero value. *)
Record SMTPError := {
  Code : Z;
  EnhancedCode : enhanced;
  Message : string;
  CheckName : string;
  Err : option error;
  Reason : string;
  Misc : gmap string MiscVal;
}.

End exterrors.

Module check.

(** Modelled from the spec: [check.FailAction] is declared in a package
    that is not part of these sources.  [New] sets its fields [Reject] and
    [Quarantine]; the override of the response code, enhanced code and
    message is the optional payload of a PolicyAction (data model, §3). *)
Record FailAction := {
  Quarantine : bool;
  Reject : bool;
  ReasonOverride : option (Z * exterrors.enhanced * string);
}.

End check.

Module module.

(** Modelled from the spec: [module.CheckResult] is declared in a package
    that is not part of these sources.  The file writes its fields [Reason]
    (an [error], always filled with an [*exterrors.SMTPError] here),
    [Reject] and [Header]; [Quarantine] is the mark of §4.3, "marks the
    message for quarantine instead of rejection". *)
Record CheckResult := {
  Reason : option exterrors.SMTPError;
  Reject : bool;
  Quarantine : bool;
  Header : textproto.Header;
}.

(** [module.CheckResult{}]: the empty decision. *)
Definition empty : CheckResult :=
  {| Reason := None; Reject := false; Quarantine := false; Header := [] |}.

(** [net.Addr] as far as the check looks at it: a [*net.TCPAddr], whose
    IP is kept in the textual form [IP.String()] gives, or something
    else. *)
Inductive Addr :=
  | TCPAddr (IP : string) (Port : Z)
  | OtherAddr (network : string).

(** [module.ConnState]; [RDNSName] is a future, [Get] gives its value,
    here [Some name] when that value is a string and [None] otherwise
    (no value, or an error). *)
Record ConnState := {
  AuthUser : string;
  RemoteAddr : option Addr;
  Hostname : string;
  RDNSName : option string;
}.

Record MsgMetadata := {
  ID : string;
  Conn : option ConnState;
}.

End module.

(** ** The operating system seen from the check *)

(** What is connected to the standard input of the child:
    [bytes.NewReader(nil)], or the header block followed by the body
    ([io.MultiReader] of the serialized header and of the opened body). *)
Inductive Stdin :=
  | NoInput
  | HeaderThenBody (hdr : textproto.Header) (body : string).

(** One call of [cmd.Start]. *)
Record Invocation := {
  inv_name : string;
  inv_args : list string;
  inv_stdin : Stdin;
}.

(** The calls of [cmd.Start] made so far, oldest first. *)
Definition World : Type := list Invocation.

(** How one command built by [exec.Command] behaves: the error of
    [cmd.StdoutPipe], the error of [cmd.Start], what [textproto.ReadHeader]
    returns on its standard output, and how the wait ends. *)
Record Child := {
  StdoutPipe_err : option error;
  Start_err : option error;
  ReadHeader : textproto.Header * option error;
  ended : WaitOutcome;
}.

(** A read of the header block that meets the end of the stream before
    any field and reports it as [io.EOF]: no field, and [io.EOF].  [run]
    goes on after it as after a read without error. *)
Definition no_output : textproto.Header * option error := ([], Some EOF).

(** What the file takes from outside.
    - [Apply] is [check.FailAction.Apply], a method of this code base whose
      source is not among the files at hand;
    - [Cmd_String name args] is [exec.Command(name, args...).String()];
    - [spawn] is the oracle: how the command built in the given world with
      the given name, arguments and input behaves. *)
Class Env := {
  Apply : check.FailAction → module.CheckResult → module.CheckResult;
  Cmd_String : string → list string → string;
  spawn : World → string → list string → Stdin → Child;
}.

(** ** Package [command] *)

Definition modName : string := "command".

Definition Stage : Type := string.

Definition StageConnection : Stage := "conn".
Definition StageSender : Stage := "sender".
Definition StageRcpt : Stage := "rcpt".
Definition StageBody : Stage := "body".

Record Check := {
  instName : string;
  stage : Stage;
  actions : gmap Z check.FailAction;
  cmd : string;
  cmdArgs : list string;
}.

(** The table [New] starts from. *)
Definition default_actions : gmap Z check.FailAction :=
  <[2 := {| check.Quarantine := true; check.Reject := false;
            check.ReasonOverride := None |}]>
  (<[1 := {| check.Quarantine := false; check.Reject := true;
             check.ReasonOverride := None |}]> ∅).

Definition New (modName instName : string) (aliases inlineArgs : list string)
  : Check + error :=
  match inlineArgs with
  | [] =>
      inr (Failure
             "command: at least one argument is required (command name)")
  | name :: args =>
      inl {| instName := instName; stage := "";
             actions := default_actions; cmd := name; cmdArgs := args |}
  end.

(** The check [Init] leaves when it returns [nil]: [exec.LookPath] found
    the command, [cfg.Process] returned no error and every node was a
    [code] directive that parsed.  [run_on] is the value [cfg.Enum] stores
    in [c.stage] (one of the four names, [StageBody] when the directive is
    absent), and [codes] are the [code] directives in order, each with the
    result of [strconv.Atoi] on its first argument and of
    [check.ParseActionDirective] on the others.  The loop body is
    [c.actions[exitCode] = action].  The returns with an error are in
    [Init_unknown] and [Check_Init] below. *)
Definition Init (c : Check) (run_on : Stage)
  (codes : list (Z * check.FailAction)) : Check :=
  {| instName := instName c;
     stage := run_on;
     actions := foldl (λ m ca, <[ca.1 := ca.2]> m) (actions c) codes;
     cmd := cmd c;
     cmdArgs := cmdArgs c |}.

Record state := {
  c : Check;
  msgMeta : module.MsgMetadata;
  mailFrom : string;
  rcpts : list string;
}.

Definition CheckStateForMsg (c : Check) (msgMeta : module.MsgMetadata)
  : state :=
  {| c := c; msgMeta := msgMeta; mailFrom := ""; rcpts := [] |}.

(** The function literal handed to [ReplaceAllStringFunc] in
    [expandCommand]: the [switch] on the matched text. *)
Definition expandPlaceholder (s : state) (address : string)
  (placeholder : string) : string :=
  if String.eqb placeholder "{auth_user}" then
    match module.Conn (msgMeta s) with
    | None => ""
    | Some conn => module.AuthUser conn
    end
  else if String.eqb placeholder "{source_ip}" then
    match module.Conn (msgMeta s) with
    | None => ""
    | Some conn =>
        match module.RemoteAddr conn with
        | Some (module.TCPAddr ip _) => ip
        | _ => ""
        end
    end
  else if String.eqb placeholder "{source_host}" then
    match module.Conn (msgMeta s) with
    | None => ""
    | Some conn => module.Hostname conn
    end
  else if String.eqb placeholder "{source_rdns}" then
    match module.Conn (msgMeta s) with
    | None => ""
    | Some conn =>
        let val := default "" (module.RDNSName conn) in
        if String.eqb val "" then "" else ""
    end
  else if String.eqb placeholder "{msg_id}" then module.ID (msgMeta s)
  else if String.eqb placeholder "{sender}" then mailFrom s
  else if String.eqb placeholder "{rcpts}" then
    Str.Join (rcpts s) (String "010" "")
  else if String.eqb placeholder "{address}" then address
  else placeholder.

(** The body of the loop of [expandCommand]. *)
Definition expandArg (s : state) (address : string) (arg : string) : string :=
  Re.ReplaceAllStringFunc arg (expandPlaceholder s address).

Definition expandCommand (s : state) (address : string)
  : string * list string :=
  (cmd (c s), map (expandArg s address) (cmdArgs (c s))).

(** The [*exterrors.SMTPError] literal of the failures that are not the
    verdict of the program; the file writes it out at each place, with the
    error at hand and the command line. *)
Definition internal_error (err : error) (cmdLine : string)
  : exterrors.SMTPError :=
  {| exterrors.Code := 450;
     exterrors.EnhancedCode := (0, 0, 0);
     exterrors.Message := "Internal server error";
     exterrors.CheckName := "command";
     exterrors.Err := Some err;
     exterrors.Reason := "";
     exterrors.Misc := {[ "cmd" := exterrors.MStr cmdLine ]} |}.

(** The literal for an exit code without an entry in the table. *)
Definition unexpected_exit_code (err : error) (cmdLine : string) (code : Z)
  : exterrors.SMTPError :=
  {| exterrors.Code := 450;
     exterrors.EnhancedCode := (0, 0, 0);
     exterrors.Message := "Internal server error";
     exterrors.CheckName := "command";
     exterrors.Err := Some err;
     exterrors.Reason := "unexpected exit code";
     exterrors.Misc := <[ "exit_code" := exterrors.MInt code ]>
                         {[ "cmd" := exterrors.MStr cmdLine ]} |}.

(** The literal handed to the action of an exit code with an entry. *)
Definition policy_rejection (cmdLine : string) (code : Z)
  : exterrors.SMTPError :=
  {| exterrors.Code := 550;
     exterrors.EnhancedCode := (5, 7, 1);
     exterrors.Message := "Message rejected for due to a local policy";
     exterrors.CheckName := "command";
     exterrors.Err := None;
     exterrors.Reason := "";
     exterrors.Misc := <[ "exit_code" := exterrors.MInt code ]>
                         {[ "cmd" := exterrors.MStr cmdLine ]} |}.

(** [module.CheckResult{Reason: ..., Reject: true}]. *)
Definition rejected (reason : exterrors.SMTPError) : module.CheckResult :=
  {| module.Reason := Some reason; module.Reject := true;
     module.Quarantine := false; module.Header := [] |}.

(** [res.Reason = reason]. *)
Definition set_Reason (res : module.CheckResult)
  (reason : exterrors.SMTPError) : module.CheckResult :=
  {| module.Reason := Some reason; module.Reject := module.Reject res;
     module.Quarantine := module.Quarantine res;
     module.Header := module.Header res |}.

(** [res.Reject = true]. *)
Definition set_Reject (res : module.CheckResult) : module.CheckResult :=
  {| module.Reason := module.Reason res; module.Reject := true;
     module.Quarantine := module.Quarantine res;
     module.Header := module.Header res |}.

(** [res.Header = hdr]. *)
Definition set_Header (res : module.CheckResult) (hdr : textproto.Header)
  : module.CheckResult :=
  {| module.Reason := module.Reason res; module.Reject := module.Reject res;
     module.Quarantine := module.Quarantine res; module.Header := hdr |}.

Definition errorRes `{Env} (s : state) (err : error)
  (res : module.CheckResult) (cmdLine : string) : module.CheckResult :=
  match err with
  | ExitError exitErr =>
      match actions (c s) !! ExitCode exitErr with
      | None =>
          set_Reject
            (set_Reason res
               (unexpected_exit_code err cmdLine (ExitCode exitErr)))
      | Some action =>
          Apply action
            (set_Reason res (policy_rejection cmdLine (ExitCode exitErr)))
      end
  | _ => set_Reject (set_Reason res (internal_error err cmdLine))
  end.

(** [err != nil && !errors.Is(err, io.EOF)]: the error when the condition
    holds. *)
Definition not_EOF (herr : option error) : option error :=
  match herr with
  | Some err => if negb (is_EOF err) then Some err else None
  | None => None
  end.

(** [run]: the decision, and the world with the call of [cmd.Start] added
    when the method gets that far.  The deferred [cmd.Process.Signal] has
    no part in the decision and is left out. *)
Definition run `{Env} (s : state) (cmdName : string) (args : list string)
  (stdin : Stdin) (w : World) : module.CheckResult * World :=
  let child := spawn w cmdName args stdin in
  let cmdLine := Cmd_String cmdName args in
  match StdoutPipe_err child with
  | Some err => (rejected (internal_error err cmdLine), w)
  | None =>
      let w' := w ++ [ {| inv_name := cmdName; inv_args := args;
                          inv_stdin := stdin |} ] in
      match Start_err child with
      | Some err => (rejected (internal_error err cmdLine), w')
      | None =>
          let '(hdr, herr) := ReadHeader child in
          match not_EOF herr with
          | Some err => (rejected (internal_error err cmdLine), w')
          | None =>
              let res := set_Header module.empty hdr in
              match cmd_Wait (ended child) with
              | Some err => (errorRes s err res cmdLine, w')
              | None => (res, w')
              end
          end
      end
  end.

(** The stage methods.  Each returns the state the receiver is left in, the
    decision, and the world. *)

Definition CheckConnection `{Env} (s : state) (w : World)
  : state * module.CheckResult * World :=
  if negb (String.eqb (stage (c s)) StageConnection)
  then (s, module.empty, w)
  else
    let '(cmdName, cmdArgs) := expandCommand s "" in
    let '(res, w') := run s cmdName cmdArgs NoInput w in
    (s, res, w').

Definition CheckSender `{Env} (s : state) (addr : string) (w : World)
  : state * module.CheckResult * World :=
  let s := {| c := c s; msgMeta := msgMeta s; mailFrom := addr;
              rcpts := rcpts s |} in
  if negb (String.eqb (stage (c s)) StageSender)
  then (s, module.empty, w)
  else
    let '(cmdName, cmdArgs) := expandCommand s addr in
    let '(res, w') := run s cmdName cmdArgs NoInput w in
    (s, res, w').

Definition CheckRcpt `{Env} (s : state) (addr : string) (w : World)
  : state * module.CheckResult * World :=
  let s := {| c := c s; msgMeta := msgMeta s; mailFrom := mailFrom s;
              rcpts := rcpts s ++ [addr] |} in
  if negb (String.eqb (stage (c s)) StageRcpt)
  then (s, module.empty, w)
  else
    let '(cmdName, cmdArgs) := expandCommand s addr in
    let '(res, w') := run s cmdName cmdArgs NoInput w in
    (s, res, w').

Definition CheckBody `{Env} (s : state) (hdr : textproto.Header)
  (body : Buffer) (w : World) : state * module.CheckResult * World :=
  if negb (String.eqb (stage (c s)) StageBody)
  then (s, module.empty, w)
  else
    let '(cmdName, cmdArgs) := expandCommand s "" in
    match Open body with
    | inr err =>
        (s,
         rejected
           (internal_error err (cmdName +:+ " " +:+ Str.Join cmdArgs " ")),
         w)
    | inl bR =>
        let '(res, w') := run s cmdName cmdArgs (HeaderThenBody hdr bR) w in
        (s, res, w')
    end.

(** ** The pipeline driving a state

    One event per call of a stage method. *)
Inductive Event :=
  | EvConnection
  | EvSender (addr : string)
  | EvRcpt (addr : string)
  | EvBody (hdr : textproto.Header) (body : Buffer).

(** The stage whose method the event calls. *)
Definition event_stage (e : Event) : Stage :=
  match e with
  | EvConnection => StageConnection
  | EvSender _ => StageSender
  | EvRcpt _ => StageRcpt
  | EvBody _ _ => StageBody
  end.

Definition deliver `{Env} (s : state) (e : Event) (w : World)
  : state * module.CheckResult * World :=
  match e with
  | EvConnection => CheckConnection s w
  | EvSender addr => CheckSender s addr w
  | EvRcpt addr => CheckRcpt s addr w
  | EvBody hdr body => CheckBody s hdr body w
  end.

(** All the events of a transaction in order: the final state, the
    decisions in order, and the world. *)
Fixpoint deliver_all `{Env} (s : state) (es : list Event) (w : World)
  : state * list module.CheckResult * World :=
  match es with
  | [] => (s, [], w)
  | e :: es' =>
      let '(s1, res, w1) := deliver s e w in
      let '(s2, rs, w2) := deliver_all s1 es' w1 in
      (s2, res :: rs, w2)
  end.

(** ** The method of [check.FailAction]

    [errorRes] is written against any [Apply]; the one below is used where
    a statement is about what the action does, and to run examples. *)

(** Modelled from the spec: [check.FailAction.Apply] is not in the sources
    at hand.  §4.3: the matched action transforms the default rejection
    outcome: "pass-through action converts it back to success; reject action
    keeps/returns the permanent rejection (optionally with action-specific
    code/message override); quarantine action marks the message for
    quarantine instead of rejection while still signaling the underlying
    cause". *)
Definition spec_Apply (a : check.FailAction) (res : module.CheckResult)
  : module.CheckResult :=
  if negb (check.Reject a) && negb (check.Quarantine a)
  then set_Header module.empty (module.Header res)
  else
    {| module.Reason :=
         match module.Reason res, check.ReasonOverride a with
         | Some r, Some (code, enh, msg) =>
             Some {| exterrors.Code := code;
                     exterrors.EnhancedCode := enh;
                     exterrors.Message := msg;
                     exterrors.CheckName := exterrors.CheckName r;
                     exterrors.Err := exterrors.Err r;
                     exterrors.Reason := exterrors.Reason r;
                     exterrors.Misc := exterrors.Misc r |}
         | r, _ => r
         end;
       module.Reject := check.Reject a;
       module.Quarantine := check.Quarantine a;
       module.Header := module.Header res |}.

(** ** Environments and values for examples *)

(** The command line as [exec.Cmd.String] prints it when the name is used
    as the path: the name and the arguments separated by spaces. *)
Definition plain_String (name : string) (args : list string) : string :=
  Str.Join (name :: args) " ".

(** The environment with the modelled [Apply]. *)
Definition spec_env (cmd_string : string → list string → string)
  (oracle : World → string → list string → Stdin → Child) : Env :=
  {| Apply := spec_Apply; Cmd_String := cmd_string; spawn := oracle |}.

(** An environment in which every child behaves as [child]. *)
Definition const_env (child : Child) : Env :=
  spec_env plain_String (λ _ _ _ _, child).

(** A child that starts, writes the header block [hdr] and its terminator,
    and ends as [o]. *)
Definition child_ending (hdr : textproto.Header) (o : WaitOutcome) : Child :=
  {| StdoutPipe_err := None; Start_err := None;
     ReadHeader := (hdr, None); ended := o |}.

(** A child that starts and ends as [o], and whose output ends before any
    header field, the read reporting [io.EOF]. *)
Definition silent_child (o : WaitOutcome) : Child :=
  {| StdoutPipe_err := None; Start_err := None;
     ReadHeader := no_output; ended := o |}.

(** A connection from 192.0.2.7 with a reverse-DNS name. *)
Definition example_conn : module.ConnState :=
  {| module.AuthUser := "bob";
     module.RemoteAddr := Some (module.TCPAddr "192.0.2.7" 25);
     module.Hostname := "helo.x.test";
     module.RDNSName := Some "mx.x.test" |}.

Definition example_meta : module.MsgMetadata :=
  {| module.ID := "4f2a"; module.Conn := Some example_conn |}.

(** The check [command /bin/check args...] with the table of [New], set to
    run at [run_on] and with the [code] directives [codes]. *)
Definition example_check (run_on : Stage) (args : list string)
  (codes : list (Z * check.FailAction)) : Check :=
  Init {| instName := "filter"; stage := ""; actions := default_actions;
          cmd := "/bin/check"; cmdArgs := args |} run_on codes.

(** The action of the directive [code N reject]. *)
Definition reject_action : check.FailAction :=
  {| check.Quarantine := false; check.Reject := true;
     check.ReasonOverride := None |}.

(** ** The vocabulary of the statements *)

(** The pipe was created, the child started, and the header block was read
    without an error other than [io.EOF]: [run] gets to [cmd.Wait]. *)
Definition header_parsed (child : Child) : bool :=
  match StdoutPipe_err child, Start_err child, not_EOF (ReadHeader child).2
  with
  | None, None, None => true
  | _, _, _ => false
  end.

(** A decision that is an infrastructure failure: a rejection with a
    response code of the 4xx class and the internal-error message, which
    carries the command line under ["cmd"]. *)
Definition infrastructure_failure (cmdLine : string)
  (d : module.CheckResult) : bool :=
  match module.Reason d with
  | Some r =>
      module.Reject d
      && (400 <=? exterrors.Code r) && (exterrors.Code r <? 500)
      && String.eqb (exterrors.Message r) "Internal server error"
      && bool_decide
           (exterrors.Misc r !! "cmd" = Some (exterrors.MStr cmdLine))
  | None => false
  end.

(** The recipients among the events, in order. *)
Definition recipients (es : list Event) : list string :=
  omap (λ e, match e with EvRcpt addr => Some addr | _ => None end) es.

(** ** Templates

    An argument read as literal text and tokens: before each token a piece
    of text without a match of [placeholderRe], and a last piece of text
    after the last token. *)

Definition Template : Type := list (string * string) * string.

Fixpoint render_pieces (pieces : list (string * string)) (last : string)
  : string :=
  match pieces with
  | [] => last
  | (pre, n) :: ps => pre +:+ Re.token n +:+ render_pieces ps last
  end.

Definition render (t : Template) : string := render_pieces t.1 t.2.

Definition well_formed (t : Template) : bool :=
  forallb (λ p, negb (Re.MatchString p.1) && Re.is_name p.2) t.1
  && negb (Re.MatchString t.2).

(** The texts of the [case] clauses of the [switch] in [expandCommand]. *)
Definition recognized : list string :=
  [ "{auth_user}"; "{source_ip}"; "{source_host}"; "{source_rdns}";
    "{msg_id}"; "{sender}"; "{rcpts}"; "{address}" ].

(** The template with every token in [recognized] replaced by what [value]
    gives for it and every other token kept as it is written. *)
Fixpoint substitute (value : string → string)
  (pieces : list (string * string)) (last : string) : string :=
  match pieces with
  | [] => last
  | (pre, n) :: ps =>
      pre
      +:+ (if bool_decide (Re.token n ∈ recognized)
           then value (Re.token n) else Re.token n)
      +:+ substitute value ps last
  end.

(** ** The loop of [Init] over the directives

    [cfg.Process] hands [Init] the nodes it does not know; the loop reads
    the [code] directives into [c.actions].  The configuration package and
    the two parsers are not in the file: they are parameters. *)

Module config.

(** [config.Node], with the fields the loop reads. *)
Record Node := {
  Name : string;
  Args : list string;
}.

(** A value handed to a format verb. *)
Inductive FmtArg :=
  | FErr (err : error)
  | FStr (s : string).

End config.

(** - [Atoi] is [strconv.Atoi];
    - [ParseActionDirective] is [check.ParseActionDirective];
    - [NodeErr node format args] is [config.NodeErr(&node, format,
      args...)]. *)
Class Parsers := {
  Atoi : string → Z + error;
  ParseActionDirective : list string → check.FailAction + error;
  NodeErr : config.Node → string → list config.FmtArg → error;
}.

(** One turn of the loop without the assignment: the exit code and the
    action of the node, or the error [Init] returns. *)
Definition parse_node `{Parsers} (node : config.Node)
  : Z * check.FailAction + error :=
  if String.eqb (config.Name node) "code" then
    match config.Args node with
    | arg0 :: ((_ :: _) as rest) =>
        match Atoi arg0 with
        | inr err => inr (NodeErr node "%v" [config.FErr err])
        | inl exitCode =>
            match ParseActionDirective rest with
            | inr err => inr (NodeErr node "%v" [config.FErr err])
            | inl action => inl (exitCode, action)
            end
        end
    | _ =>
        inr (NodeErr node
               "at least two arguments are required: <code> <action>" [])
    end
  else
    inr (NodeErr node "unexpected directive: %v"
           [config.FStr (config.Name node)]).

(** [for _, node := range unknown { ... }]: the table the loop leaves in
    [c.actions], which it updates in place, and the error it returns. *)
Fixpoint Init_unknown `{Parsers} (actions : gmap Z check.FailAction)
  (unknown : list config.Node) : gmap Z check.FailAction * option error :=
  match unknown with
  | [] => (actions, None)
  | node :: rest =>
      match parse_node node with
      | inr err => (actions, Some err)
      | inl (exitCode, action) =>
          Init_unknown (<[exitCode := action]> actions) rest
      end
  end.

(** Parsers for examples: the three codes [-1], [3] and [7] in decimal,
    the actions [reject] and [quarantine] without options, and an error
    that keeps the format string. *)
Definition example_parsers : Parsers :=
  {| Atoi := λ s,
       if String.eqb s "3" then inl 3
       else if String.eqb s "7" then inl 7
       else if String.eqb s "-1" then inl (-1)
       else inr (Failure "strconv.Atoi: invalid syntax");
     ParseActionDirective := λ args,
       match args with
       | [a] =>
           if String.eqb a "reject" then
             inl {| check.Quarantine := false; check.Reject := true;
                    check.ReasonOverride := None |}
           else if String.eqb a "quarantine" then
             inl {| check.Quarantine := true; check.Reject := false;
                    check.ReasonOverride := None |}
           else inr (Failure "unknown action")
       | _ => inr (Failure "unknown action")
       end;
     NodeErr := λ node format args, Failure format |}.

(** ** More vocabulary *)

(** The last directive for the exit code [k] among [codes]. *)
Fixpoint directive_for (k : Z) (codes : list (Z * check.FailAction))
  : option check.FailAction :=
  match codes with
  | [] => None
  | (k', action) :: rest =>
      match directive_for k rest with
      | Some later => Some later
      | None => if decide (k' = k) then Some action else None
      end
  end.

(** The address an event hands to [expandCommand]. *)
Definition event_address (e : Event) : string :=
  match e with
  | EvSender addr | EvRcpt addr => addr
  | EvConnection | EvBody _ _ => ""
  end.

(** What the method of an event writes into the state before it looks at
    the stage. *)
Definition record_event (s : state) (e : Event) : state :=
  match e with
  | EvSender addr =>
      {| c := c s; msgMeta := msgMeta s; mailFrom := addr;
         rcpts := rcpts s |}
  | EvRcpt addr =>
      {| c := c s; msgMeta := msgMeta s; mailFrom := mailFrom s;
         rcpts := rcpts s ++ [addr] |}
  | EvConnection | EvBody _ _ => s
  end.

(** The input the method of an event connects to the child, when it gets
    to [run]: none for a body that cannot be opened. *)
Definition event_stdin (e : Event) : option Stdin :=
  match e with
  | EvBody hdr (Readable content) => Some (HeaderThenBody hdr content)
  | EvBody _ (Unreadable _) => None
  | EvConnection | EvSender _ | EvRcpt _ => Some NoInput
  end.

(** The sender addresses among the events, in order. *)
Definition senders (es : list Event) : list string :=
  omap (λ e, match e with EvSender addr => Some addr | _ => None end) es.

(** The byte [a] occurs in [s]. *)
Fixpoint contains (a : ascii) (s : string) : bool :=
  match s with
  | "" => false
  | String b t => Ascii.eqb b a || contains a t
  end.

(** ** [Init] with its error returns *)

(** What the call of [cfg.Process] does: the value it leaves in [c.stage]
    through the pointer handed to [cfg.Enum], the nodes it does not know,
    and its error. *)
Record ConfigMap := {
  stage_stored : Stage;
  unknown_nodes : list config.Node;
  Process_err : option error;
}.

(** - [LookPath] is [exec.LookPath];
    - [Errorf format args] is [fmt.Errorf(format, args...)]. *)
Class System := {
  LookPath : string → string + error;
  Errorf : string → list config.FmtArg → error;
}.

(** The method [Init] of [*Check]: the check it leaves, and the error it
    returns. *)
Definition Check_Init `{Parsers} `{System} (c : Check) (cfg : ConfigMap)
  : Check * option error :=
  match LookPath (cmd c) with
  | inr err => (c, Some (Errorf "command: %w" [config.FErr err]))
  | inl _ =>
      match Process_err cfg with
      | Some err =>
          ({| instName := instName c; stage := stage_stored cfg;
              actions := actions c; cmd := cmd c; cmdArgs := cmdArgs c |},
           Some err)
      | None =>
          let '(table, err) := Init_unknown (actions c) (unknown_nodes cfg) in
          ({| instName := instName c; stage := stage_stored cfg;
              actions := table; cmd := cmd c; cmdArgs := cmdArgs c |},
           err)
      end
  end.

(** A system for examples: every command but [/bin/missing] is found. *)
Definition example_system : System :=
  {| LookPath := λ file,
       if String.eqb file "/bin/missing"
       then inr (Failure "executable file not found in $PATH")
       else inl file;
     Errorf := λ format args, Failure format |}.

(** ** The values of the tokens

    What each token of the [switch] stands for: the authenticated user,
    the textual IP of a TCP peer, the host name and the reverse-DNS name of
    the connection, each empty without connection information or without
    the value; the message identifier; the sender recorded; the recipients
    recorded, joined by newlines; the address of the event.  Any other text
    stands for itself. *)
Definition token_value (s : state) (address : string) (tok : string)
  : string :=
  let conn := module.Conn (msgMeta s) in
  if String.eqb tok "{auth_user}" then from_option module.AuthUser "" conn
  else if String.eqb tok "{source_ip}" then
    match conn ≫= module.RemoteAddr with
    | Some (module.TCPAddr ip _) => ip
    | _ => ""
    end
  else if String.eqb tok "{source_host}" then
    from_option module.Hostname "" conn
  else if String.eqb tok "{source_rdns}" then
    default "" (conn ≫= module.RDNSName)
  else if String.eqb tok "{msg_id}" then module.ID (msgMeta s)
  else if String.eqb tok "{sender}" then mailFrom s
  else if String.eqb tok "{rcpts}" then Str.Join (rcpts s) (String "010" "")
  else if String.eqb tok "{address}" then address
  else tok.

(** The values the [switch] gives: those of [token_value], but the empty
    string for [{source_rdns}]. *)
Definition switch_value (s : state) (address : string) (tok : string)
  : string :=
  if String.eqb tok "{source_rdns}" then "" else token_value s address tok.

(** No token of the template is [{source_rdns}]. *)
Definition without_rdns (t : Template) : bool :=
  forallb (λ p, negb (String.eqb (Re.token p.2) "{source_rdns}")) t.1.

(** * Properties *)

(** ** Byte strings *)

Module StrFacts.

Lemma app_cons (a : ascii) (s t : string) :
  String a s +:+ t = String a (s +:+ t).
Proof. reflexivity. Qed.

Lemma app_nil_r (s : string) : s +:+ "" = s.
Proof. induction s as [|a s IH]; [done|]. by rewrite app_cons, IH. Qed.

Lemma app_assoc (s t u : string) : (s +:+ t) +:+ u = s +:+ (t +:+ u).
Proof. induction s as [|a s IH]; [done|]. by rewrite !app_cons, IH. Qed.

Lemma length_app (s t : string) :
  String.length (s +:+ t) = (String.length s + String.length t)%nat.
Proof.
  induction s as [|a s IH]; [done|]. rewrite app_cons. simpl. by rewrite IH.
Qed.

End StrFacts.

(** ** The scanner *)

Module ReFacts.
Import StrFacts.

Lemma word_not_close (a : ascii) :
  Re.is_word a = true → Re.is_close a = false.
Proof.
  unfold Re.is_close. destruct (Ascii.eqb_spec a "}") as [->|]; [|done].
  by vm_compute.
Qed.

(** What [lazy_tail] accepts. *)
Lemma lazy_tail_Some (s w rest : string) :
  Re.lazy_tail s = Some (w, rest) →
  Re.all_word w = true ∧ s = w +:+ "}" +:+ rest.
Proof.
  revert w rest. induction s as [|a s IH]; intros w rest; simpl; [done|].
  destruct (Re.is_close a) eqn:Hc.
  - intros [= <- <-]. split; [done|].
    apply Ascii.eqb_eq in Hc as ->. reflexivity.
  - destruct (Re.is_word a) eqn:Hw; [|done].
    destruct (Re.lazy_tail s) as [[w' r']|] eqn:Ht; [|done].
    intros [= <- <-]. destruct (IH _ _ eq_refl) as [Hall ->].
    split; [simpl; by rewrite Hw|]. by rewrite app_cons.
Qed.

Lemma lazy_tail_word (w rest : string) :
  Re.all_word w = true → Re.lazy_tail (w +:+ "}" +:+ rest) = Some (w, rest).
Proof.
  induction w as [|a w IH]; [done|]. cbn [Re.all_word].
  intros [Ha Hw]%andb_prop. rewrite app_cons. cbn [Re.lazy_tail].
  by rewrite (word_not_close _ Ha), Ha, (IH Hw).
Qed.

(** A token is matched where it stands. *)
Lemma match_here_token (n rest : string) :
  Re.is_name n = true →
  Re.match_here (Re.token n +:+ rest) = Some (Re.token n, rest).
Proof.
  destruct n as [|a n]; [done|]. simpl. intros [Ha Hn]%andb_prop.
  unfold Re.token. rewrite !app_assoc.
  change ("{" +:+ String a n +:+ "}" +:+ rest)
    with (String "{" (String a (n +:+ "}" +:+ rest))).
  simpl. rewrite Ha. simpl. by rewrite (lazy_tail_word _ _ Hn).
Qed.

(** A match is a token, and the text is the match and what follows. *)
Lemma match_here_Some (s m rest : string) :
  Re.match_here s = Some (m, rest) →
  s = m +:+ rest ∧ ∃ n, Re.is_name n = true ∧ m = Re.token n.
Proof.
  destruct s as [|o [|a t]]; simpl; [done..|].
  destruct (Re.is_open o) eqn:Ho; [|done].
  destruct (Re.is_word a) eqn:Ha; [|done]. simpl.
  destruct (Re.lazy_tail t) as [[w r]|] eqn:Ht; [|done].
  intros [= <- <-]. apply lazy_tail_Some in Ht as [Hw ->].
  apply Ascii.eqb_eq in Ho as ->. split.
  - by rewrite !app_cons, app_assoc.
  - exists (String a w). split; [simpl; by rewrite Ha|done].
Qed.

Lemma match_here_has_match (s m rest : string) :
  Re.match_here s = Some (m, rest) → Re.has_match s.
Proof.
  intros (-> & n & Hn & ->)%match_here_Some. by exists "", n, rest.
Qed.

(** A match that starts before an opening brace ends before it. *)
Lemma lazy_tail_before_open (p y w r : string) :
  Re.lazy_tail (p +:+ String "{" y) = Some (w, r) →
  ∃ r', Re.lazy_tail p = Some (w, r') ∧ r = r' +:+ String "{" y.
Proof.
  revert w r. induction p as [|a p IH]; intros w r; [done|].
  rewrite app_cons. simpl. destruct (Re.is_close a).
  - intros [= <- <-]. by eexists.
  - destruct (Re.is_word a); [|done].
    destruct (Re.lazy_tail (p +:+ String "{" y)) as [[w' r0]|] eqn:Ht;
      [|done].
    intros [= <- <-]. destruct (IH _ _ eq_refl) as (r' & -> & ->).
    by eexists.
Qed.

Lemma match_here_before_open (p y m r : string) :
  p ≠ "" →
  Re.match_here (p +:+ String "{" y) = Some (m, r) →
  ∃ r', Re.match_here p = Some (m, r') ∧ r = r' +:+ String "{" y.
Proof.
  destruct p as [|o [|a t]]; [done| |]; intros _.
  - rewrite app_cons. simpl. rewrite andb_false_r. done.
  - rewrite !app_cons. simpl.
    destruct (Re.is_open o && Re.is_word a); [|done].
    destruct (Re.lazy_tail (t +:+ String "{" y)) as [[w r0]|] eqn:Ht;
      [|done].
    intros [= <- <-]. apply lazy_tail_before_open in Ht as (r' & -> & ->).
    by eexists.
Qed.

Lemma has_match_cons (a : ascii) (p : string) :
  Re.has_match p → Re.has_match (String a p).
Proof.
  intros (x & n & b & Hn & ->). exists (String a x), n, b.
  by rewrite app_cons.
Qed.

(** The bytes of a match are passed over. *)
Lemma replace_from_skip (repl : string → string) (a b : string) :
  Re.replace_from repl (String.length a) (a +:+ b)
  = Re.replace_from repl 0 b.
Proof.
  induction a as [|x a IH]; [done|]. rewrite app_cons. simpl. apply IH.
Qed.

(** The two equations of the leftmost-first scan. *)
Lemma replace_match (repl : string → string) (s m rest : string) :
  Re.match_here s = Some (m, rest) →
  Re.replace_from repl 0 s = repl m +:+ Re.replace_from repl 0 rest.
Proof.
  intros Hm. pose proof (match_here_Some _ _ _ Hm) as (Hs & n & Hn & ->).
  destruct s as [|a t]; [done|]. cbn [Re.replace_from]. rewrite Hm.
  f_equal.
  assert (t = (n +:+ "}") +:+ rest) as ->.
  { unfold Re.token in Hs. rewrite !app_assoc in Hs.
    injection Hs; intros -> _. rewrite app_assoc. reflexivity. }
  apply replace_from_skip.
Qed.

Lemma replace_no_match (repl : string → string) (a : ascii) (t : string) :
  Re.match_here (String a t) = None →
  Re.replace_from repl 0 (String a t) = String a (Re.replace_from repl 0 t).
Proof. intros Hm. cbn [Re.replace_from]. by rewrite Hm. Qed.

(** Text without a match is copied. *)
Lemma replace_plain (repl : string → string) (s : string) :
  ¬ Re.has_match s → Re.replace_from repl 0 s = s.
Proof.
  induction s as [|a s IH]; [done|]. intros Hno.
  destruct (Re.match_here (String a s)) as [[m r]|] eqn:Hm.
  { destruct Hno. by eapply match_here_has_match. }
  rewrite replace_no_match by done. f_equal. apply IH.
  intros H. apply Hno. by apply has_match_cons.
Qed.

(** Text without a match, then a token: the text is copied, the token is
    handed to [repl], and the scan goes on after the token. *)
Lemma replace_token (repl : string → string) (pre n rest : string) :
  ¬ Re.has_match pre → Re.is_name n = true →
  Re.replace_from repl 0 (pre +:+ Re.token n +:+ rest)
  = pre +:+ repl (Re.token n) +:+ Re.replace_from repl 0 rest.
Proof.
  intros Hno Hn. induction pre as [|a pre IH].
  - apply replace_match. by apply match_here_token.
  - rewrite !app_cons.
    destruct (Re.match_here (String a (pre +:+ Re.token n +:+ rest)))
      as [[m r]|] eqn:Hm.
    + exfalso. apply Hno. rewrite <- app_cons in Hm.
      apply match_here_before_open in Hm as (r' & Hm & _); [|done].
      by eapply match_here_has_match.
    + rewrite replace_no_match by done. f_equal. apply IH.
      intros H. apply Hno. by apply has_match_cons.
Qed.

Lemma has_match_inv (a : ascii) (p : string) :
  Re.has_match (String a p) →
  (∃ m r, Re.match_here (String a p) = Some (m, r)) ∨ Re.has_match p.
Proof.
  intros ([|a' x] & n & b & Hn & Hs).
  - left. rewrite Hs. eexists _, _. by apply match_here_token.
  - right. rewrite app_cons in Hs. injection Hs; intros -> _.
    by exists x, n, b.
Qed.

(** The scan for a match finds one exactly when there is one. *)
Lemma MatchString_spec (s : string) :
  Re.MatchString s = true ↔ Re.has_match s.
Proof.
  induction s as [|a s IH].
  - split; [done|]. by intros ([|??] & ? & ? & _ & ?).
  - cbn [Re.MatchString].
    destruct (Re.match_here (String a s)) as [[m r]|] eqn:Hm.
    + split; [|done]. intros _. by eapply match_here_has_match.
    + rewrite IH. split; [apply has_match_cons|].
      intros [(m & r & Hm')|H]%has_match_inv; [congruence|done].
Qed.

Lemma MatchString_false (s : string) :
  Re.MatchString s = false ↔ ¬ Re.has_match s.
Proof.
  rewrite <- MatchString_spec. by destruct (Re.MatchString s).
Qed.

(** A match at the start stays one when text is added at the end. *)
Lemma match_here_app (p x m r : string) :
  Re.match_here p = Some (m, r) →
  Re.match_here (p +:+ x) = Some (m, r +:+ x).
Proof.
  intros (-> & n & Hn & ->)%match_here_Some.
  rewrite app_assoc. by apply match_here_token.
Qed.

End ReFacts.

(** ** The expander *)

Section Expander.

Variables (s : state) (address : string).

(** The [switch] has no clause for a text that is not in [recognized]:
    the text is returned as it is. *)
Lemma expandPlaceholder_other (placeholder : string) :
  placeholder ∉ recognized →
  expandPlaceholder s address placeholder = placeholder.
Proof.
  intros Hnot. unfold expandPlaceholder.
  repeat match goal with
  | |- context [String.eqb placeholder ?k] =>
      destruct (String.eqb_spec placeholder k) as [->|_];
      [exfalso; apply Hnot; unfold recognized; set_solver|]
  end.
  done.
Qed.

(** An argument that is the recipient token and nothing else. *)
Lemma expandArg_rcpts :
  expandArg s address "{rcpts}" = Str.Join (rcpts s) (String "010" "").
Proof.
  unfold expandArg, Re.ReplaceAllStringFunc. cbn.
  apply StrFacts.app_nil_r.
Qed.

(** A well-formed template is expanded piece by piece. *)
Lemma expandArg_pieces (pieces : list (string * string)) (last : string) :
  well_formed (pieces, last) = true →
  expandArg s address (render_pieces pieces last)
  = substitute (expandPlaceholder s address) pieces last.
Proof.
  unfold well_formed, expandArg, Re.ReplaceAllStringFunc. simpl.
  intros [Hps Hlast%negb_true_iff]%andb_prop.
  induction pieces as [|[pre n] ps IH]; simpl.
  - by apply ReFacts.replace_plain, ReFacts.MatchString_false.
  - simpl in Hps.
    apply andb_prop in Hps as [[Hpre%negb_true_iff Hn]%andb_prop Hps].
    rewrite ReFacts.replace_token
      by (by try apply ReFacts.MatchString_false).
    rewrite (IH Hps). do 2 f_equal.
    case_bool_decide as Hrec; [done|].
    by apply expandPlaceholder_other.
Qed.

End Expander.

(** Every argument is the rendering of a well-formed template. *)
Lemma template_of_argument (arg : string) :
  ∃ t, well_formed t = true ∧ render t = arg.
Proof.
  remember (String.length arg) as k eqn:Hk.
  revert arg Hk. induction (lt_wf k) as [k _ IH]. intros arg ->.
  destruct arg as [|a arg]; [by exists ([], "")|].
  destruct (Re.match_here (String a arg)) as [[m rest]|] eqn:Hm.
  - pose proof (ReFacts.match_here_Some _ _ _ Hm) as (Hs & n & Hn & ->).
    destruct (IH (String.length rest)) with (arg := rest)
      as ([ps last] & Hwf & Hr); [|done|].
    { rewrite Hs, StrFacts.length_app. simpl. lia. }
    exists (("", n) :: ps, last). split.
    + unfold well_formed in *.
      cbn [fst snd forallb Re.MatchString negb] in *.
      apply andb_prop in Hwf as [-> ->]. by rewrite Hn.
    + unfold render in *. cbn [fst snd render_pieces] in *.
      by rewrite Hr, Hs.
  - destruct (IH (String.length arg)) with (arg := arg)
      as ([ps last] & Hwf & Hr); [simpl; lia|done|].
    unfold well_formed, render in *. cbn [fst snd] in *.
    apply andb_prop in Hwf as [Hps Hlast].
    destruct ps as [|[pre n] ps]; cbn [forallb render_pieces fst snd] in *.
    + exists ([], String a last). cbn [fst snd forallb render_pieces].
      subst last. split; [|done].
      cbn [Re.MatchString]. by rewrite Hm.
    + apply andb_prop in Hps as [[Hpre Hn]%andb_prop Hps].
      exists ((String a pre, n) :: ps, last).
      cbn [fst snd forallb render_pieces]. split; [|by rewrite <- Hr].
      rewrite Hn, Hps, Hlast. cbn [Re.MatchString].
      destruct (Re.match_here (String a pre)) as [[m r]|] eqn:Hm'.
      { apply ReFacts.match_here_app
          with (x := Re.token n +:+ render_pieces ps last) in Hm'.
        rewrite StrFacts.app_cons, Hr in Hm'. congruence. }
      by rewrite Hpre.
Qed.

(** ** The runner and the classifier *)

Section Runner.

Context `{E : Env}.
Variables (s : state) (cmdName : string) (args : list string).
Variables (stdin : Stdin) (w : World).

(** Once the header block is read, the decision is that of the wait. *)
Lemma run_parsed :
  header_parsed (spawn w cmdName args stdin) = true →
  run s cmdName args stdin w
  = (match cmd_Wait (ended (spawn w cmdName args stdin)) with
     | Some err =>
         errorRes s err
           (set_Header module.empty
              (ReadHeader (spawn w cmdName args stdin)).1)
           (Cmd_String cmdName args)
     | None =>
         set_Header module.empty (ReadHeader (spawn w cmdName args stdin)).1
     end,
     w ++ [ {| inv_name := cmdName; inv_args := args; inv_stdin := stdin |} ]).
Proof.
  unfold header_parsed, run.
  destruct (StdoutPipe_err _); [done|].
  destruct (Start_err _); [done|].
  destruct (ReadHeader _) as [hdr herr]. simpl.
  destruct (not_EOF herr); [done|].
  by destruct (cmd_Wait _).
Qed.

(** [run] starts at most one process, and none when the pipe cannot be
    created. *)
Lemma run_world :
  (run s cmdName args stdin w).2
  = match StdoutPipe_err (spawn w cmdName args stdin) with
    | Some _ => w
    | None =>
        w ++ [ {| inv_name := cmdName; inv_args := args;
                  inv_stdin := stdin |} ]
    end.
Proof.
  unfold run.
  destruct (StdoutPipe_err _); [done|].
  destruct (Start_err _); [done|].
  destruct (ReadHeader _) as [hdr herr].
  destruct (not_EOF herr); [done|].
  by destruct (cmd_Wait _).
Qed.

(** An error that is not an exit error: the table is not read. *)
Lemma errorRes_not_exit (err : error) (res : module.CheckResult)
  (cmdLine : string) :
  (∀ ps, err ≠ ExitError ps) →
  errorRes s err res cmdLine
  = set_Reject (set_Reason res (internal_error err cmdLine)).
Proof.
  intros Hne. destruct err as [ps| |msg]; [|done..]. by destruct (Hne ps).
Qed.

(** The paths of [errorRes] that do not call [Apply] leave the header
    alone; the one that does hands [Apply] a result with the same
    header. *)
Lemma errorRes_Header (err : error) (res : module.CheckResult)
  (cmdLine : string) :
  (∀ a r, module.Header (Apply a r) = module.Header r) →
  module.Header (errorRes s err res cmdLine) = module.Header res.
Proof.
  intros HApply. unfold errorRes.
  destruct err as [ps| |msg]; [|done..].
  destruct (actions (c s) !! ExitCode ps); [|done].
  by rewrite HApply.
Qed.

End Runner.

Lemma spec_Apply_Header (a : check.FailAction) (r : module.CheckResult) :
  module.Header (spec_Apply a r) = module.Header r.
Proof. unfold spec_Apply. by destruct (_ && _). Qed.

(** ** Exit codes *)

Lemma cmd_Wait_nonzero (code : Z) :
  code ≠ 0 →
  cmd_Wait (Reaped (Exited code)) = Some (ExitError (Exited code)).
Proof.
  intros Hcode. unfold cmd_Wait, Success, ExitCode.
  by destruct (Z.eqb_spec code 0).
Qed.

Lemma cmd_Wait_signaled (sig : Z) :
  cmd_Wait (Reaped (Signaled sig)) = Some (ExitError (Signaled sig)).
Proof. reflexivity. Qed.

Lemma cmd_Wait_zero : cmd_Wait (Reaped (Exited 0)) = None.
Proof. reflexivity. Qed.

(** C4.  A child that ends with a nonzero exit code for which the table has
    no entry: the decision is a rejection with code 450, the internal-error
    message and the reason "unexpected exit code"; it carries the command
    line and the exit code, and the header block read from the child.  It
    is neither the permanent rejection nor the empty decision. *)
Theorem unmapped_exit_code `{E : Env} (s : state) (cmdName : string)
  (args : list string) (stdin : Stdin) (w : World) (code : Z) :
  header_parsed (spawn w cmdName args stdin) = true →
  ended (spawn w cmdName args stdin) = Reaped (Exited code) →
  code ≠ 0 →
  actions (c s) !! code = None →
  (run s cmdName args stdin w).1
  = {| module.Reason :=
         Some {| exterrors.Code := 450;
                 exterrors.EnhancedCode := (0, 0, 0);
                 exterrors.Message := "Internal server error";
                 exterrors.CheckName := "command";
                 exterrors.Err := Some (ExitError (Exited code));
                 exterrors.Reason := "unexpected exit code";
                 exterrors.Misc :=
                   <[ "exit_code" := exterrors.MInt code ]>
                     {[ "cmd" := exterrors.MStr (Cmd_String cmdName args) ]}
              |};
       module.Reject := true;
       module.Quarantine := false;
       module.Header := (ReadHeader (spawn w cmdName args stdin)).1 |}.
Proof.
  intros Hparsed Hend Hcode Hnone. rewrite run_parsed by done.
  rewrite Hend, cmd_Wait_nonzero by done.
  unfold errorRes. cbn [ExitCode fst]. by rewrite Hnone.
Qed.

(** C6.  A child that exits with status 0: whatever the table holds, the
    decision has no reason, rejects nothing, quarantines nothing and
    carries the header block read from the child.  When the output ended
    before any byte, the decision is the empty one. *)
Theorem exit_zero_passes `{E : Env} (s : state) (cmdName : string)
  (args : list string) (stdin : Stdin) (w : World) :
  header_parsed (spawn w cmdName args stdin) = true →
  ended (spawn w cmdName args stdin) = Reaped (Exited 0) →
  (run s cmdName args stdin w).1
  = {| module.Reason := None; module.Reject := false;
       module.Quarantine := false;
       module.Header := (ReadHeader (spawn w cmdName args stdin)).1 |}
  ∧ (ReadHeader (spawn w cmdName args stdin) = no_output →
     (run s cmdName args stdin w).1 = module.empty).
Proof.
  intros Hparsed Hend. rewrite run_parsed by done.
  rewrite Hend, cmd_Wait_zero. cbn [fst]. split; [done|].
  by intros ->.
Qed.

(** C2, as the code has it.  When the wait itself fails, the decision is
    the internal error (code 450, rejected, with the command line) and the
    table is not read.  A child ended by a signal comes back from the wait
    as an exit error whose exit code is -1, and is classified as that exit
    code: without an entry for -1 the decision is the rejection with code
    450 and the reason "unexpected exit code"; with an entry, the action
    of that entry is applied to the rejection with code 550. *)
Theorem abnormal_termination `{E : Env} (s : state) (cmdName : string)
  (args : list string) (stdin : Stdin) (w : World) :
  header_parsed (spawn w cmdName args stdin) = true →
  (∀ msg, ended (spawn w cmdName args stdin) = WaitFailed msg →
     (run s cmdName args stdin w).1
     = {| module.Reason :=
            Some {| exterrors.Code := 450;
                    exterrors.EnhancedCode := (0, 0, 0);
                    exterrors.Message := "Internal server error";
                    exterrors.CheckName := "command";
                    exterrors.Err := Some (Failure msg);
                    exterrors.Reason := "";
                    exterrors.Misc :=
                      {[ "cmd" := exterrors.MStr (Cmd_String cmdName args) ]}
                 |};
          module.Reject := true;
          module.Quarantine := false;
          module.Header := (ReadHeader (spawn w cmdName args stdin)).1 |})
  ∧ (∀ sig, ended (spawn w cmdName args stdin) = Reaped (Signaled sig) →
       (run s cmdName args stdin w).1
       = match actions (c s) !! (-1) with
         | None =>
             {| module.Reason :=
                  Some (unexpected_exit_code (ExitError (Signaled sig))
                          (Cmd_String cmdName args) (-1));
                module.Reject := true;
                module.Quarantine := false;
                module.Header :=
                  (ReadHeader (spawn w cmdName args stdin)).1 |}
         | Some action =>
             Apply action
               {| module.Reason :=
                    Some (policy_rejection (Cmd_String cmdName args) (-1));
                  module.Reject := false;
                  module.Quarantine := false;
                  module.Header :=
                    (ReadHeader (spawn w cmdName args stdin)).1 |}
         end)
  ∧ (∀ sig, ended (spawn w cmdName args stdin) = Reaped (Signaled sig) →
       actions (c s) !! (-1) = None →
       infrastructure_failure (Cmd_String cmdName args)
         (run s cmdName args stdin w).1 = true).
Proof.
  intros Hparsed. rewrite run_parsed by done. repeat split.
  - by intros msg ->.
  - intros sig ->. rewrite cmd_Wait_signaled. cbn [fst].
    unfold errorRes. cbn [ExitCode]. by destruct (actions (c s) !! (-1)).
  - intros sig -> Hnone. rewrite cmd_Wait_signaled. cbn [fst].
    unfold errorRes. cbn [ExitCode]. rewrite Hnone.
    unfold infrastructure_failure. cbn.
    apply bool_decide_eq_true_2.
    by rewrite lookup_insert_ne, lookup_singleton_eq.
Qed.

(** C9.  At the stage "body", when the body cannot be opened: the decision
    is the internal error (code 450, rejected) with the command name and
    the expanded arguments joined by spaces as the command line, and the
    world is the one before the call: nothing was started. *)
Theorem body_open_failure `{E : Env} (s : state) (hdr : textproto.Header)
  (err : error) (w : World) :
  stage (c s) = StageBody →
  CheckBody s hdr (Unreadable err) w
  = (s,
     {| module.Reason :=
          Some {| exterrors.Code := 450;
                  exterrors.EnhancedCode := (0, 0, 0);
                  exterrors.Message := "Internal server error";
                  exterrors.CheckName := "command";
                  exterrors.Err := Some err;
                  exterrors.Reason := "";
                  exterrors.Misc :=
                    {[ "cmd" :=
                         exterrors.MStr
                           (cmd (c s) +:+ " "
                            +:+ Str.Join
                                  (map (expandArg s "") (cmdArgs (c s))) " ")
                    ]} |};
        module.Reject := true;
        module.Quarantine := false;
        module.Header := [] |},
     w).
Proof. intros Hstage. unfold CheckBody. by rewrite Hstage. Qed.

(** The decision of [errorRes] has the header of the result it is given,
    with the modelled [Apply]. *)
Lemma errorRes_spec_Header (cs : string → list string → string)
  (oracle : World → string → list string → Stdin → Child) (s : state)
  (err : error) (res : module.CheckResult) (cmdLine : string) :
  module.Header (@errorRes (spec_env cs oracle) s err res cmdLine)
  = module.Header res.
Proof. apply errorRes_Header. intros a r. apply spec_Apply_Header. Qed.

(** C10.  When the header block was read and the wait then returns an
    error (an exit code with or without an entry in the table, a signal, a
    failed wait), the decision carries that header block: [errorRes] gives
    back the header of the result it was handed, on each of its paths. *)
Theorem failure_keeps_header (cs : string → list string → string)
  (oracle : World → string → list string → Stdin → Child) (s : state)
  (cmdName : string) (args : list string) (stdin : Stdin) (w : World) :
  header_parsed (oracle w cmdName args stdin) = true →
  cmd_Wait (ended (oracle w cmdName args stdin)) ≠ None →
  module.Header (@run (spec_env cs oracle) s cmdName args stdin w).1
  = (ReadHeader (oracle w cmdName args stdin)).1
  ∧ ∀ err res cmdLine,
      module.Header (@errorRes (spec_env cs oracle) s err res cmdLine)
      = module.Header res.
Proof.
  intros Hparsed Hwait. split; [|apply errorRes_spec_Header].
  rewrite (@run_parsed (spec_env cs oracle)) by done.
  cbn [spawn spec_env]. destruct (cmd_Wait _) as [err|]; [|done].
  cbn [fst]. by rewrite errorRes_spec_Header.
Qed.

(** C5.  [New] gives the table with 1 for reject and 2 for quarantine, and
    [Init] without [code] directives leaves it so.  With that table a child
    that exits with 1 gives the rejection with code 550, enhanced code
    5.7.1 and the local-policy message, carrying the command line and the
    exit code; a child that exits with 2 gives the same reason on a
    decision that quarantines and does not reject. *)
Theorem default_table (cs : string → list string → string)
  (oracle : World → string → list string → Stdin → Child)
  (modName instName : string) (aliases inlineArgs : list string)
  (chk : Check) :
  New modName instName aliases inlineArgs = inl chk →
    actions chk !! 1 = Some {| check.Quarantine := false;
                               check.Reject := true;
                               check.ReasonOverride := None |}
    ∧ actions chk !! 2 = Some {| check.Quarantine := true;
                                 check.Reject := false;
                                 check.ReasonOverride := None |}
    ∧ ∀ run_on m cmdName args stdin w,
        let reason code :=
          {| exterrors.Code := 550;
             exterrors.EnhancedCode := (5, 7, 1);
             exterrors.Message :=
               "Message rejected for due to a local policy";
             exterrors.CheckName := "command";
             exterrors.Err := None;
             exterrors.Reason := "";
             exterrors.Misc :=
               <[ "exit_code" := exterrors.MInt code ]>
                 {[ "cmd" := exterrors.MStr (cs cmdName args) ]} |} in
        let decision :=
          (@run (spec_env cs oracle)
             (CheckStateForMsg (Init chk run_on []) m)
             cmdName args stdin w).1 in
        header_parsed (oracle w cmdName args stdin) = true →
        (ended (oracle w cmdName args stdin) = Reaped (Exited 1) →
         decision
         = {| module.Reason := Some (reason 1);
              module.Reject := true;
              module.Quarantine := false;
              module.Header := (ReadHeader (oracle w cmdName args stdin)).1
           |})
        ∧ (ended (oracle w cmdName args stdin) = Reaped (Exited 2) →
           decision
           = {| module.Reason := Some (reason 2);
                module.Reject := false;
                module.Quarantine := true;
                module.Header := (ReadHeader (oracle w cmdName args stdin)).1
             |}).
Proof.
  destruct inlineArgs as [|name args0]; [done|]. intros [= <-].
  cbn [actions]. repeat split; [done..| |].
  all: intros Hend; rewrite (@run_parsed (spec_env cs oracle)) by done.
  all: cbn [spawn spec_env Cmd_String]; by rewrite Hend.
Qed.

(** ** The stage methods *)

(** Unfold a stage method, then take its branches one by one. *)
Ltac open_method :=
  cbn [deliver];
  unfold CheckConnection, CheckSender, CheckRcpt, CheckBody, expandCommand;
  cbn [c msgMeta mailFrom rcpts].

Ltac split_method :=
  repeat match goal with
  | |- context [if negb ?b then _ else _] => destruct (negb b)
  | |- context [match Open ?b with _ => _ end] => destruct (Open b)
  | |- context [let '(_, _) := ?r in _] => destruct r
  end; cbn [fst snd].

Section Stages.

Context `{E : Env}.

(** The check of a state is never replaced. *)
Lemma deliver_c (s : state) (e : Event) (w : World) :
  c (deliver s e w).1.1 = c s.
Proof. destruct e; open_method; by split_method. Qed.

(** An event whose stage is not the configured one: the empty decision, and
    the world as it was. *)
Lemma deliver_other_stage (s : state) (e : Event) (w : World) :
  stage (c s) ≠ event_stage e →
  (deliver s e w).1.2 = module.empty ∧ (deliver s e w).2 = w.
Proof.
  intros Hne. apply String.eqb_neq in Hne.
  destruct e as [|addr|addr|hdr body]; simpl in *;
    unfold CheckConnection, CheckSender, CheckRcpt, CheckBody,
      expandCommand; simpl;
    by rewrite Hne.
Qed.

(** One event starts at most one process. *)
Lemma deliver_world (s : state) (e : Event) (w : World) :
  ∃ invs, (deliver s e w).2 = w ++ invs ∧ (length invs ≤ 1)%nat.
Proof.
  assert (∀ s' name args stdin,
    ∃ invs,
      (run s' name args stdin w).2 = w ++ invs ∧ (length invs ≤ 1)%nat)
    as Hrun.
  { intros. rewrite run_world. destruct (StdoutPipe_err _).
    - exists []. rewrite app_nil_r. split; [done|simpl; lia].
    - eexists. split; [reflexivity|simpl; lia]. }
  assert (∃ invs : World, w = w ++ invs ∧ (length invs ≤ 1)%nat) as Hidle.
  { exists []. rewrite app_nil_r. split; [done|simpl; lia]. }
  destruct e; open_method;
    repeat match goal with
    | |- context [if negb ?b then _ else _] => destruct (negb b)
    | |- context [match Open ?b with _ => _ end] => destruct (Open b)
    | |- context [run ?s' ?n ?a ?i w] =>
        specialize (Hrun s' n a i); destruct (run s' n a i w)
    end; done.
Qed.

(** Over a transaction, no more processes are started than there are events
    of the configured stage. *)
Lemma deliver_all_world (s : state) (es : list Event) (w : World) :
  ∃ invs,
    (deliver_all s es w).2 = w ++ invs
    ∧ (length invs
       ≤ length (filter (λ e, event_stage e = stage (c s)) es))%nat.
Proof.
  revert s w. induction es as [|e es IH]; intros s w.
  { exists []. by rewrite app_nil_r. }
  cbn [deliver_all].
  pose proof (deliver_c s e w) as Hc.
  pose proof (deliver_world s e w) as (i1 & Hw1 & Hlen1).
  pose proof (deliver_other_stage s e w) as Hother.
  destruct (deliver s e w) as [[s1 res] w1]. simpl in *.
  destruct (IH s1 w1) as (i2 & Hw2 & Hlen2).
  destruct (deliver_all s1 es w1) as [[s2 rs] w2]. simpl in *.
  exists (i1 ++ i2). rewrite Hw2, Hw1, app_assoc. split; [done|].
  rewrite length_app, filter_cons. rewrite Hc in Hlen2.
  case_decide as Hst; simpl; [lia|].
  destruct Hother as [_ Hw]; [done|].
  rewrite Hw in Hw1. apply (f_equal length) in Hw1.
  rewrite length_app in Hw1. lia.
Qed.

(** The recipients of a state are those it had and, after them, those of
    the events, in order. *)
Lemma deliver_rcpts (s : state) (e : Event) (w : World) :
  rcpts (deliver s e w).1.1 = rcpts s ++ recipients [e].
Proof.
  destruct e; open_method; split_method; cbn [recipients omap];
    by rewrite ?app_nil_r.
Qed.

Lemma deliver_all_rcpts (s : state) (es : list Event) (w : World) :
  rcpts (deliver_all s es w).1.1 = rcpts s ++ recipients es
  ∧ c (deliver_all s es w).1.1 = c s.
Proof.
  revert s w. induction es as [|e es IH]; intros s w.
  { simpl. by rewrite app_nil_r. }
  cbn [deliver_all].
  pose proof (deliver_rcpts s e w) as Hr. pose proof (deliver_c s e w) as Hc.
  destruct (deliver s e w) as [[s1 res] w1]. simpl in Hr, Hc.
  destruct (IH s1 w1) as [Hr2 Hc2].
  destruct (deliver_all s1 es w1) as [[s2 rs] w2]. simpl in *.
  rewrite Hr2, Hr, Hc2, Hc. split; [|done].
  rewrite <- app_assoc. f_equal. by destruct e.
Qed.

End Stages.

(** C7, as the code has it.  An event whose stage is not the configured one
    gets the empty decision and starts nothing.  One event starts at most
    one process, and over the events of a transaction no more processes are
    started than there are events of the configured stage: at most one for
    a stage whose event comes once, one per recipient at most for the stage
    "rcpt". *)
Theorem stage_gating `{E : Env} (s : state) (e : Event) (es : list Event)
  (w : World) :
  (stage (c s) ≠ event_stage e →
   (deliver s e w).1.2 = module.empty ∧ (deliver s e w).2 = w)
  ∧ (∃ invs, (deliver s e w).2 = w ++ invs ∧ (length invs ≤ 1)%nat)
  ∧ (∃ invs,
       (deliver_all s es w).2 = w ++ invs
       ∧ (length invs
          ≤ length (filter (λ e, event_stage e = stage (c s)) es))%nat).
Proof.
  split; [apply deliver_other_stage|].
  split; [apply deliver_world|apply deliver_all_world].
Qed.

(** C1, as the code has it.  After any events of a transaction, the method
    for a recipient first records the address and then expands: the token
    [{rcpts}] becomes the addresses of the recipient events so far, that of
    the current event included as the last one, joined by newlines; and at
    the stage "rcpt" the process is started with the arguments expanded in
    that state. *)
Theorem rcpts_token `{E : Env} (chk : Check) (m : module.MsgMetadata)
  (es : list Event) (addr : string) (w : World) :
  let before := deliver_all (CheckStateForMsg chk m) es w in
  let after := CheckRcpt before.1.1 addr before.2 in
  let s' := after.1.1 in
  let started :=
    {| inv_name := cmd chk;
       inv_args := map (expandArg s' addr) (cmdArgs chk);
       inv_stdin := NoInput |} in
  rcpts s' = recipients es ++ [addr]
  ∧ expandArg s' addr "{rcpts}"
    = Str.Join (recipients es ++ [addr]) (String "010" "")
  ∧ (stage chk = StageRcpt →
     StdoutPipe_err (spawn before.2 (inv_name started) (inv_args started)
                       NoInput) = None →
     after.2 = before.2 ++ [started]).
Proof.
  intros before after s' started.
  destruct (deliver_all_rcpts (CheckStateForMsg chk m) es w) as [Hr Hc].
  fold before in Hr, Hc. cbn [CheckStateForMsg rcpts c app] in Hr, Hc.
  assert (s' = {| c := c before.1.1; msgMeta := msgMeta before.1.1;
                  mailFrom := mailFrom before.1.1;
                  rcpts := rcpts before.1.1 ++ [addr] |}) as Hs'.
  { unfold s', after. open_method. by split_method. }
  assert (rcpts s' = recipients es ++ [addr]) as Hrcpts.
  { by rewrite Hs', <- Hr. }
  split; [done|]. split.
  - by rewrite expandArg_rcpts, Hrcpts.
  - intros Hstage Hpipe. unfold started in *. cbn [inv_name inv_args] in Hpipe.
    unfold after. unfold CheckRcpt, expandCommand.
    cbn [c msgMeta mailFrom rcpts]. rewrite Hc, Hstage, String.eqb_refl.
    cbn [negb]. rewrite Hc in Hs'. rewrite <- Hs'.
    pose proof (run_world s' (cmd chk) (map (expandArg s' addr) (cmdArgs chk))
                  NoInput before.2) as Hw.
    rewrite Hpipe in Hw. destruct (run _ _ _ _ _). by simpl in *.
Qed.

(** ** The tokens *)

Lemma expandPlaceholder_switch (s : state) (address tok : string) :
  tok ∈ recognized →
  expandPlaceholder s address tok = switch_value s address tok.
Proof.
  unfold recognized. intros Htok.
  repeat (apply elem_of_cons in Htok as [->|Htok]);
    [..|by apply elem_of_nil in Htok];
    unfold expandPlaceholder, switch_value, token_value; cbn;
    try done.
  - destruct (module.Conn (msgMeta s)) as [conn|]; [|done]. cbn.
    by destruct (module.RemoteAddr conn) as [[ip port|network]|].
  - destruct (module.Conn (msgMeta s)) as [conn|]; [|done].
    by destruct (String.eqb _ _).
Qed.

Lemma substitute_ext (f g : string → string)
  (pieces : list (string * string)) (last : string) :
  Forall (λ p, Re.token p.2 ∈ recognized →
               f (Re.token p.2) = g (Re.token p.2)) pieces →
  substitute f pieces last = substitute g pieces last.
Proof.
  induction 1 as [|[pre n] ps Hp _ IH]; [done|].
  cbn [substitute]. rewrite IH. cbn [snd] in Hp.
  case_bool_decide as Hrec; [|done]. by rewrite Hp.
Qed.

(** What the code does with every argument: the text between the tokens is
    copied, every token outside the [switch] stays as it is written, and
    every token of the [switch] is replaced by its value, the empty string
    in the case of [{source_rdns}]. *)
Lemma expandArg_switch (s : state) (address : string) (t : Template) :
  well_formed t = true →
  expandArg s address (render t)
  = substitute (switch_value s address) t.1 t.2.
Proof.
  destruct t as [pieces last]. intros Hwf. unfold render. cbn [fst snd].
  rewrite expandArg_pieces by done. apply substitute_ext, Forall_forall.
  intros p _. apply expandPlaceholder_switch.
Qed.

(** C8, where the code departs from it.  In an argument made of text and
    tokens the text between the tokens is copied, every token that is not
    one of the eight stays as it is written, byte for byte, and each of the
    eight, wherever and however often it stands, is replaced by its value:
    this holds for every argument without the token [{source_rdns}].  That
    token is replaced by the empty string also when the reverse-DNS name is
    known: [-u {auth_user} --rdns={source_rdns} {nope}] becomes
    [-u bob --rdns= {nope}] where the values give
    [-u bob --rdns=mx.x.test {nope}]. *)
Theorem placeholders_expanded :
  (∀ s address t,
     well_formed t = true →
     without_rdns t = true →
     expandArg s address (render t)
     = substitute (token_value s address) t.1 t.2)
  ∧ (let s := CheckStateForMsg (example_check StageConnection [] [])
                example_meta in
     let t := ([ ("-u ", "auth_user"); (" --rdns=", "source_rdns");
                 (" ", "nope") ], "") in
     well_formed t = true
     ∧ render t = "-u {auth_user} --rdns={source_rdns} {nope}"
     ∧ substitute (token_value s "") t.1 t.2
       = "-u bob --rdns=mx.x.test {nope}"
     ∧ expandArg s "" (render t) = "-u bob --rdns= {nope}").
Proof.
  split; [|by vm_compute].
  intros s address [pieces last] Hwf Hno. rewrite expandArg_switch by done.
  cbn [fst snd]. apply substitute_ext. unfold without_rdns in Hno.
  cbn [fst] in Hno. apply Forall_forall. intros p Hp _.
  rewrite forallb_forall in Hno. apply list_elem_of_In, Hno in Hp.
  unfold switch_value. by destruct (String.eqb _ _).
Qed.

(** C3, where the code departs from it.  The clause for [{source_rdns}]
    returns the empty string on each of its paths: with a connection whose
    reverse-DNS name is known, the token is replaced by nothing. *)
Theorem source_rdns_dropped :
  module.RDNSName example_conn = Some "mx.x.test"
  ∧ expandArg
      (CheckStateForMsg
         (example_check StageConnection ["--rdns={source_rdns}"] [])
         example_meta)
      "" "--rdns={source_rdns}"
    = "--rdns="
  ∧ ∀ s address, expandPlaceholder s address "{source_rdns}" = "".
Proof.
  split; [reflexivity|]. split; [reflexivity|].
  intros s address. unfold expandPlaceholder. cbn.
  destruct (module.Conn (msgMeta s)); [|done]. by destruct (String.eqb _ _).
Qed.

(** * The theorems at work *)

(** The argument [-u {auth_user} {nope} {address}!]: two tokens of the
    [switch] and one that is not. *)
Lemma placeholders_expanded_witness :
  expandArg
    (CheckStateForMsg (example_check StageRcpt [] []) example_meta)
    "a@x.test" "-u {auth_user} {nope} {address}!"
  = "-u bob {nope} a@x.test!".
Proof.
  apply (proj1 placeholders_expanded
           (CheckStateForMsg (example_check StageRcpt [] []) example_meta)
           "a@x.test"
           ([("-u ", "auth_user"); (" ", "nope"); (" ", "address")], "!"));
    reflexivity.
Defined.

(** Exit code 3 with the table of [New]. *)
Lemma unmapped_exit_code_witness :
  exterrors.Code
  <$> module.Reason
        (@run (const_env (child_ending [("X-Checked", "yes")]
                            (Reaped (Exited 3))))
           (CheckStateForMsg (example_check StageBody [] []) example_meta)
           "/bin/check" [] NoInput []).1
  = Some 450.
Proof.
  rewrite (@unmapped_exit_code
             (const_env (child_ending [("X-Checked", "yes")]
                           (Reaped (Exited 3))))
             (CheckStateForMsg (example_check StageBody [] []) example_meta)
             "/bin/check" [] NoInput [] 3);
    [reflexivity | reflexivity | reflexivity | discriminate | reflexivity].
Defined.

(** Exit code 0, no output, and a table with an entry for 0. *)
Lemma exit_zero_passes_witness :
  (@run (const_env (silent_child (Reaped (Exited 0))))
     (CheckStateForMsg (example_check StageBody [] [(0, reject_action)])
        example_meta)
     "/bin/check" [] NoInput []).1
  = module.empty.
Proof.
  apply (@exit_zero_passes (const_env (silent_child (Reaped (Exited 0))))
           (CheckStateForMsg (example_check StageBody [] [(0, reject_action)])
              example_meta)
           "/bin/check" [] NoInput []);
    reflexivity.
Defined.

(** A child killed by signal 9, with the table of [New]. *)
Lemma abnormal_termination_witness :
  infrastructure_failure "/bin/check"
    (@run (const_env (silent_child (Reaped (Signaled 9))))
       (CheckStateForMsg (example_check StageBody [] []) example_meta)
       "/bin/check" [] NoInput []).1
  = true.
Proof.
  apply (@abnormal_termination
           (const_env (silent_child (Reaped (Signaled 9))))
           (CheckStateForMsg (example_check StageBody [] []) example_meta)
           "/bin/check" [] NoInput [] eq_refl)
    with (sig := 9);
    reflexivity.
Defined.

(** The same child, with the directive [code -1 reject]: the entry is
    applied, and the decision is the rejection with code 550, not an
    infrastructure failure. *)
Lemma abnormal_termination_counterexample :
  let decision :=
    (@run (const_env (silent_child (Reaped (Signaled 9))))
       (CheckStateForMsg (example_check StageBody [] [(-1, reject_action)])
          example_meta)
       "/bin/check" [] NoInput []).1 in
  actions (example_check StageBody [] [(-1, reject_action)]) !! (-1)
  = Some reject_action
  ∧ decision
    = spec_Apply reject_action
        {| module.Reason := Some (policy_rejection "/bin/check" (-1));
           module.Reject := false; module.Quarantine := false;
           module.Header := [] |}
  ∧ exterrors.Code <$> module.Reason decision = Some 550
  ∧ infrastructure_failure "/bin/check" decision = false.
Proof. vm_compute. done. Qed.

(** The stage is "body" and the body cannot be opened. *)
Lemma body_open_failure_witness :
  (@CheckBody (const_env (silent_child (Reaped (Exited 0))))
     (CheckStateForMsg (example_check StageBody ["-i"; "{msg_id}"] [])
        example_meta)
     [("Subject", "hello")] (Unreadable (Failure "no such file")) []).2
  = [].
Proof.
  rewrite (@body_open_failure (const_env (silent_child (Reaped (Exited 0))))
             (CheckStateForMsg (example_check StageBody ["-i"; "{msg_id}"] [])
                example_meta)
             [("Subject", "hello")] (Failure "no such file") []);
    reflexivity.
Defined.

(** A child that writes one header field and exits with 1. *)
Lemma failure_keeps_header_witness :
  module.Header
    (@run (const_env (child_ending [("X-Checked", "yes")]
                        (Reaped (Exited 1))))
       (CheckStateForMsg (example_check StageBody [] []) example_meta)
       "/bin/check" [] NoInput []).1
  = [("X-Checked", "yes")].
Proof.
  apply (failure_keeps_header plain_String
           (λ _ _ _ _,
              child_ending [("X-Checked", "yes")] (Reaped (Exited 1)))
           (CheckStateForMsg (example_check StageBody [] []) example_meta)
           "/bin/check" [] NoInput []);
    [reflexivity | discriminate].
Defined.

(** The check [New] makes from [/bin/check], and a child that exits
    with 2. *)
Lemma default_table_witness :
  module.Quarantine
    (@run (const_env (child_ending [] (Reaped (Exited 2))))
       (CheckStateForMsg (example_check StageBody [] []) example_meta)
       "/bin/check" [] NoInput []).1
  = true.
Proof.
  pose proof (default_table plain_String
                (λ _ _ _ _, child_ending [] (Reaped (Exited 2)))
                "command" "filter" [] ["/bin/check"] _ eq_refl)
    as (_ & _ & Hrun).
  destruct (Hrun StageBody example_meta "/bin/check" [] NoInput [] eq_refl)
    as [_ Hquarantine].
  exact (f_equal module.Quarantine (Hquarantine eq_refl)).
Defined.

(** The stage is "body" and a recipient arrives. *)
Lemma stage_gating_witness :
  (@deliver (const_env (silent_child (Reaped (Exited 0))))
     (CheckStateForMsg (example_check StageBody [] []) example_meta)
     (EvRcpt "a@x.test") []).1.2 = module.empty
  ∧ (@deliver (const_env (silent_child (Reaped (Exited 0))))
       (CheckStateForMsg (example_check StageBody [] []) example_meta)
       (EvRcpt "a@x.test") []).2 = [].
Proof.
  apply (proj1 (@stage_gating (const_env (silent_child (Reaped (Exited 0))))
                  (CheckStateForMsg (example_check StageBody [] [])
                     example_meta)
                  (EvRcpt "a@x.test") [] [])).
  discriminate.
Defined.

(** The stage is "rcpt" and two recipients arrive: the check runs twice. *)
Lemma stage_gating_counterexample :
  let w :=
    (@deliver_all (const_env (silent_child (Reaped (Exited 0))))
       (CheckStateForMsg (example_check StageRcpt ["-a"; "{address}"] [])
          example_meta)
       [EvRcpt "a@x.test"; EvRcpt "b@x.test"] []).2 in
  w = [ {| inv_name := "/bin/check"; inv_args := ["-a"; "a@x.test"];
           inv_stdin := NoInput |};
        {| inv_name := "/bin/check"; inv_args := ["-a"; "b@x.test"];
           inv_stdin := NoInput |} ]
  ∧ ¬ (length w ≤ 1)%nat.
Proof. vm_compute. split; [done|lia]. Qed.

(** The stage is "rcpt", the argument is [{rcpts}], and [b@x.test] arrives
    after [a@x.test]. *)
Lemma rcpts_token_witness :
  (@CheckRcpt (const_env (silent_child (Reaped (Exited 0))))
     (@deliver_all (const_env (silent_child (Reaped (Exited 0))))
        (CheckStateForMsg (example_check StageRcpt ["{rcpts}"] [])
           example_meta)
        [EvRcpt "a@x.test"] []).1.1
     "b@x.test"
     [ {| inv_name := "/bin/check"; inv_args := ["a@x.test"];
          inv_stdin := NoInput |} ]).2
  = [ {| inv_name := "/bin/check"; inv_args := ["a@x.test"];
         inv_stdin := NoInput |};
      {| inv_name := "/bin/check";
         inv_args := [Str.Join ["a@x.test"; "b@x.test"] (String "010" "")];
         inv_stdin := NoInput |} ].
Proof.
  exact (proj2 (proj2
    (@rcpts_token (const_env (silent_child (Reaped (Exited 0))))
       (example_check StageRcpt ["{rcpts}"] []) example_meta
       [EvRcpt "a@x.test"] "b@x.test" []))
    eq_refl eq_refl).
Defined.

(** In the same transaction each process gets a recipient list that ends
    with the recipient of its own event, not the list from before the
    event. *)
Lemma rcpts_token_counterexample :
  let w :=
    (@deliver_all (const_env (silent_child (Reaped (Exited 0))))
       (CheckStateForMsg (example_check StageRcpt ["{rcpts}"] [])
          example_meta)
       [EvRcpt "a@x.test"; EvRcpt "b@x.test"] []).2 in
  inv_args <$> w
  = [ [Str.Join ["a@x.test"] (String "010" "")];
      [Str.Join ["a@x.test"; "b@x.test"] (String "010" "")] ]
  ∧ inv_args <$> w
    ≠ [ [Str.Join [] (String "010" "")];
        [Str.Join ["a@x.test"] (String "010" "")] ].
Proof. vm_compute. split; [done|discriminate]. Qed.

(** * Further properties of the file *)

(** ** The scanner *)

Module ScanFacts.
Import StrFacts ReFacts.

Lemma lazy_tail_contains_close (s w rest : string) :
  Re.lazy_tail s = Some (w, rest) → contains "}" s = true.
Proof.
  intros [_ ->]%lazy_tail_Some. induction w as [|a w IH]; [done|].
  rewrite app_cons. cbn [contains]. rewrite IH. apply orb_true_r.
Qed.

Lemma match_here_contains (s m rest : string) :
  Re.match_here s = Some (m, rest) →
  contains "{" s = true ∧ contains "}" s = true.
Proof.
  destruct s as [|o [|a t]]; [done..|]. cbn [Re.match_here].
  destruct (Re.is_open o) eqn:Ho; [|done].
  destruct (Re.is_word a); [|done]. cbn [andb].
  destruct (Re.lazy_tail t) as [[w r]|] eqn:Ht; [|done]. intros _.
  apply lazy_tail_contains_close in Ht. cbn [contains].
  unfold Re.is_open in Ho. rewrite Ho, Ht. split; [done|].
  by rewrite !orb_true_r.
Qed.

(** No match without both braces. *)
Lemma MatchString_contains (s : string) :
  Re.MatchString s = true →
  contains "{" s = true ∧ contains "}" s = true.
Proof.
  induction s as [|a s IH]; [done|]. cbn [Re.MatchString].
  destruct (Re.match_here (String a s)) as [[m r]|] eqn:Hm.
  - intros _. by eapply match_here_contains.
  - intros [H1 H2]%IH. cbn [contains]. rewrite H1, H2.
    by rewrite !orb_true_r.
Qed.

(** The lazy tail of a text without closing brace, followed by one. *)
Lemma lazy_tail_closed (t x : string) :
  contains "}" t = false →
  Re.lazy_tail (t +:+ String "}" x)
  = if Re.all_word t then Some (t, x) else None.
Proof.
  induction t as [|a t IH]; [done|]. cbn [contains].
  intros [Ha Ht]%orb_false_elim. rewrite app_cons. cbn [Re.lazy_tail].
  unfold Re.is_close. rewrite Ha, (IH Ht). cbn [Re.all_word].
  destruct (Re.is_word a); [|done]. by destruct (Re.all_word t).
Qed.

(** The scan written as the recursion it implements. *)
Lemma scan_equation (repl : string → string) (s : string) :
  Re.ReplaceAllStringFunc s repl
  = match s with
    | "" => ""
    | String a t =>
        match Re.match_here s with
        | Some (m, rest) => repl m +:+ Re.ReplaceAllStringFunc rest repl
        | None => String a (Re.ReplaceAllStringFunc t repl)
        end
    end.
Proof.
  unfold Re.ReplaceAllStringFunc. destruct s as [|a t]; [done|].
  destruct (Re.match_here (String a t)) as [[m rest]|] eqn:Hm.
  - by apply replace_match.
  - by apply replace_no_match.
Qed.

End ScanFacts.

(** X1.  What [placeholderRe] matches at a given start: exactly a token,
    that is an opening brace, a non-empty run of bytes of the class and a
    closing brace; the text is the match and what follows it. *)
Theorem placeholder_match (s m rest : string) :
  Re.match_here s = Some (m, rest)
  ↔ ∃ n, Re.is_name n = true ∧ m = Re.token n ∧ s = m +:+ rest.
Proof.
  split.
  - intros (Hs & n & Hn & Hm)%ReFacts.match_here_Some. by exists n.
  - intros (n & Hn & -> & ->). by apply ReFacts.match_here_token.
Qed.

(** X2.  The replacement goes from left to right and never looks at a
    byte twice: at a match the function is given the match and the scan
    goes on after it; elsewhere one byte is copied.  What the function
    returns is not scanned. *)
Theorem replace_leftmost_first (repl : string → string) (a : ascii)
  (t : string) :
  Re.ReplaceAllStringFunc (String a t) repl
  = match Re.match_here (String a t) with
    | Some (m, rest) => repl m +:+ Re.ReplaceAllStringFunc rest repl
    | None => String a (Re.ReplaceAllStringFunc t repl)
    end.
Proof. by rewrite ScanFacts.scan_equation at 1. Qed.

(** X3.  Replacing every match by itself gives the text back. *)
Theorem replace_identity (s : string) :
  Re.ReplaceAllStringFunc s (λ m, m) = s.
Proof.
  remember (String.length s) as k eqn:Hk.
  revert s Hk. induction (lt_wf k) as [k _ IH]. intros s ->.
  rewrite ScanFacts.scan_equation. destruct s as [|a t]; [done|].
  destruct (Re.match_here (String a t)) as [[m rest]|] eqn:Hm.
  - pose proof (ReFacts.match_here_Some _ _ _ Hm) as (Hs & n & Hn & ->).
    rewrite (IH (String.length rest)); [done| |done].
    rewrite Hs, StrFacts.length_app. simpl. lia.
  - f_equal. apply (IH (String.length t)); [simpl; lia|done].
Qed.

(** X4.  An argument that lacks an opening brace, or lacks a closing
    brace, is passed on as it is, in every state. *)
Theorem argument_without_braces (s : state) (address arg : string) :
  contains "{" arg = false ∨ contains "}" arg = false →
  expandArg s address arg = arg.
Proof.
  intros Hno. unfold expandArg, Re.ReplaceAllStringFunc.
  apply ReFacts.replace_plain, ReFacts.MatchString_false.
  destruct (Re.MatchString arg) eqn:Hm; [|done].
  apply ScanFacts.MatchString_contains in Hm as [H1 H2].
  destruct Hno; congruence.
Qed.

(** X5.  A pair of braces around nothing, or around a text with a byte
    that is not in the class, is not a token: the argument that consists of
    it is passed on as it is. *)
Theorem malformed_token (s : state) (address n : string) :
  Re.is_name n = false →
  contains "{" n = false →
  contains "}" n = false →
  Re.MatchString ("{" +:+ n +:+ "}") = false
  ∧ expandArg s address ("{" +:+ n +:+ "}") = "{" +:+ n +:+ "}".
Proof.
  intros Hn Hopen Hclose.
  assert (Re.MatchString ("{" +:+ n +:+ "}") = false) as Hno.
  { change ("{" +:+ n +:+ "}") with (String "{" (n +:+ "}")).
    cbn [Re.MatchString].
    assert (Re.MatchString (n +:+ "}") = false) as ->.
    { destruct (Re.MatchString (n +:+ "}")) eqn:Hm; [|done].
      apply ScanFacts.MatchString_contains in Hm as [H _].
      clear -H Hopen. induction n as [|a n IH]; [done|].
      rewrite StrFacts.app_cons in H. cbn [contains] in *.
      apply orb_false_elim in Hopen as [Ha Hn]. rewrite Ha in H. auto. }
    destruct n as [|a n]; [done|]. rewrite StrFacts.app_cons.
    cbn [Re.match_here]. cbn [contains] in Hclose.
    apply orb_false_elim in Hclose as [_ Hclose].
    rewrite (ScanFacts.lazy_tail_closed n "" Hclose).
    cbn [Re.is_name Re.all_word] in Hn.
    destruct (Re.is_word a); [|done]. cbn [andb] in *. by rewrite Hn. }
  split; [done|]. unfold expandArg, Re.ReplaceAllStringFunc.
  by apply ReFacts.replace_plain, ReFacts.MatchString_false.
Qed.

(** ** The table of exit codes *)

Lemma foldl_insert_lookup (m : gmap Z check.FailAction)
  (codes : list (Z * check.FailAction)) (k : Z) :
  foldl (λ m ca, <[ca.1 := ca.2]> m) m codes !! k
  = match directive_for k codes with
    | Some action => Some action
    | None => m !! k
    end.
Proof.
  revert m. induction codes as [|[k' action] codes IH]; intros m; [done|].
  cbn [foldl directive_for fst snd]. rewrite IH.
  destruct (directive_for k codes); [done|].
  case_decide as Hk; [subst; apply lookup_insert_eq|].
  by apply lookup_insert_ne.
Qed.

Section Loop.

Context `{P : Parsers}.

Lemma Init_unknown_app (actions : gmap Z check.FailAction)
  (good : list config.Node) (codes : list (Z * check.FailAction))
  (rest : list config.Node) :
  Forall2 (λ node ca, parse_node node = inl ca) good codes →
  Init_unknown actions (good ++ rest)
  = Init_unknown (foldl (λ m ca, <[ca.1 := ca.2]> m) actions codes) rest.
Proof.
  intros Hgood. revert actions.
  induction Hgood as [|node [k a] good codes Hnode _ IH]; intros actions;
    [done|].
  cbn [app Init_unknown foldl fst snd]. rewrite Hnode. apply IH.
Qed.

(** A loop that returns no error has read every node. *)
Lemma Init_unknown_None (actions table : gmap Z check.FailAction)
  (unknown : list config.Node) :
  Init_unknown actions unknown = (table, None) →
  ∃ codes,
    Forall2 (λ node ca, parse_node node = inl ca) unknown codes
    ∧ table = foldl (λ m ca, <[ca.1 := ca.2]> m) actions codes.
Proof.
  revert actions. induction unknown as [|node rest IH]; intros actions.
  { intros [= <-]. by exists []. }
  cbn [Init_unknown].
  destruct (parse_node node) as [[k a]|err] eqn:Hnode; [|done].
  intros (codes & Hall & ->)%IH. exists ((k, a) :: codes).
  split; [by constructor|done].
Qed.

End Loop.

(** X7.  When every node is a [code] directive with at least two
    arguments that both parsers accept, the loop returns no error and
    leaves the table [Init] is modelled with: each exit code assigned its
    action, in the order of the directives. *)
Theorem Init_unknown_ok `{P : Parsers} (chk : Check) (run_on : Stage)
  (unknown : list config.Node) (codes : list (Z * check.FailAction)) :
  Forall2 (λ node ca, parse_node node = inl ca) unknown codes →
  Init_unknown (actions chk) unknown
  = (actions (Init chk run_on codes), None).
Proof.
  intros Hall. rewrite <- (app_nil_r unknown).
  by rewrite (Init_unknown_app _ _ codes).
Qed.

(** X8.  At the first node that is not such a directive the loop stops
    with the error of that node: the directives before it are in the table
    already, since the map is updated in place, and the nodes after it are
    not read. *)
Theorem Init_unknown_error `{P : Parsers} (chk : Check) (run_on : Stage)
  (good : list config.Node) (codes : list (Z * check.FailAction))
  (bad : config.Node) (rest : list config.Node) (err : error) :
  Forall2 (λ node ca, parse_node node = inl ca) good codes →
  parse_node bad = inr err →
  Init_unknown (actions chk) (good ++ bad :: rest)
  = (actions (Init chk run_on codes), Some err).
Proof.
  intros Hgood Hbad. rewrite (Init_unknown_app _ _ codes) by done.
  cbn [Init_unknown]. by rewrite Hbad.
Qed.

(** X6.  What [Init] leaves behind.  When the command is not found, it
    returns the error of the lookup wrapped and the check is untouched.
    When [cfg.Process] fails, it returns that error and the table is
    untouched.  When it returns no error, every node was a [code] directive
    that parsed, the check is the one [Init] is modelled with, and the
    entry of an exit code is the action of the last directive for it, or
    without such a directive the entry the table had, or none. *)
Theorem Init_table `{P : Parsers} `{Y : System} (chk : Check)
  (cfg : ConfigMap) :
  (∀ err, LookPath (cmd chk) = inr err →
     Check_Init chk cfg
     = (chk, Some (Errorf "command: %w" [config.FErr err])))
  ∧ (∀ path err, LookPath (cmd chk) = inl path →
       Process_err cfg = Some err →
       (Check_Init chk cfg).2 = Some err
       ∧ actions (Check_Init chk cfg).1 = actions chk)
  ∧ ((Check_Init chk cfg).2 = None →
     ∃ codes,
       Forall2 (λ node ca, parse_node node = inl ca) (unknown_nodes cfg)
         codes
       ∧ (Check_Init chk cfg).1 = Init chk (stage_stored cfg) codes
       ∧ ∀ k, actions (Check_Init chk cfg).1 !! k
              = match directive_for k codes with
                | Some action => Some action
                | None => actions chk !! k
                end).
Proof.
  unfold Check_Init. split; [by intros err ->|]. split.
  - intros path err Hpath Hproc. by rewrite Hpath, Hproc.
  - destruct (LookPath (cmd chk)) as [path|err]; [|done].
    destruct (Process_err cfg) as [err|]; [done|].
    destruct (Init_unknown (actions chk) (unknown_nodes cfg))
      as [table oerr] eqn:Hloop.
    cbn [fst snd]. intros ->.
    apply Init_unknown_None in Hloop as (codes & Hall & ->).
    exists codes. split; [done|]. split; [done|].
    intros k. cbn [actions]. apply foldl_insert_lookup.
Qed.

(** X9.  A [code] directive takes effect: when the last directive for a
    nonzero exit code gives an action, a child that exits with that code
    gets the decision this action makes of the rejection with code 550,
    enhanced code 5.7.1 and the local-policy message, which carries the
    command line, the exit code and the header block read. *)
Theorem directive_applied `{E : Env} (chk : Check) (run_on : Stage)
  (codes : list (Z * check.FailAction)) (m : module.MsgMetadata)
  (cmdName : string) (args : list string) (stdin : Stdin) (w : World)
  (k : Z) (action : check.FailAction) :
  header_parsed (spawn w cmdName args stdin) = true →
  ended (spawn w cmdName args stdin) = Reaped (Exited k) →
  k ≠ 0 →
  directive_for k codes = Some action →
  (run (CheckStateForMsg (Init chk run_on codes) m) cmdName args stdin w).1
  = Apply action
      {| module.Reason :=
           Some {| exterrors.Code := 550;
                   exterrors.EnhancedCode := (5, 7, 1);
                   exterrors.Message :=
                     "Message rejected for due to a local policy";
                   exterrors.CheckName := "command";
                   exterrors.Err := None;
                   exterrors.Reason := "";
                   exterrors.Misc :=
                     <[ "exit_code" := exterrors.MInt k ]>
                       {[ "cmd" :=
                            exterrors.MStr (Cmd_String cmdName args) ]} |};
         module.Reject := false;
         module.Quarantine := false;
         module.Header := (ReadHeader (spawn w cmdName args stdin)).1 |}.
Proof.
  intros Hparsed Hend Hk Hdir. rewrite run_parsed by done.
  rewrite Hend, cmd_Wait_nonzero by done. cbn [fst].
  unfold errorRes. cbn [ExitCode CheckStateForMsg c].
  pose proof (foldl_insert_lookup (actions chk) codes k) as Hlook.
  rewrite Hdir in Hlook. cbn [Init actions]. by rewrite Hlook.
Qed.

(** ** The early returns of [run] *)

(** X10.  When the pipe for the output cannot be created, the decision is
    the internal error with that error, and [cmd.Start] is not called.
    When the pipe is there and the start fails, the decision is the
    internal error with the error of the start.  Both carry the command
    line, reject, and have no header. *)
Theorem setup_failure `{E : Env} (s : state) (cmdName : string)
  (args : list string) (stdin : Stdin) (w : World) (err : error) :
  let failed :=
    {| module.Reason :=
         Some {| exterrors.Code := 450;
                 exterrors.EnhancedCode := (0, 0, 0);
                 exterrors.Message := "Internal server error";
                 exterrors.CheckName := "command";
                 exterrors.Err := Some err;
                 exterrors.Reason := "";
                 exterrors.Misc :=
                   {[ "cmd" := exterrors.MStr (Cmd_String cmdName args) ]}
              |};
       module.Reject := true;
       module.Quarantine := false;
       module.Header := [] |} in
  (StdoutPipe_err (spawn w cmdName args stdin) = Some err →
   run s cmdName args stdin w = (failed, w))
  ∧ (StdoutPipe_err (spawn w cmdName args stdin) = None →
     Start_err (spawn w cmdName args stdin) = Some err →
     run s cmdName args stdin w
     = (failed,
        w ++ [ {| inv_name := cmdName; inv_args := args;
                  inv_stdin := stdin |} ])).
Proof.
  intros failed. unfold run. split.
  - by intros ->.
  - by intros -> ->.
Qed.

(** X11.  When reading the header block fails with an error other than
    [io.EOF], the decision is the internal error with that error: the
    fields read so far are dropped and the child is not waited for, so
    neither its exit status nor the table has a say. *)
Theorem malformed_header `{E : Env} (s : state) (cmdName : string)
  (args : list string) (stdin : Stdin) (w : World)
  (hdr : textproto.Header) (err : error) :
  StdoutPipe_err (spawn w cmdName args stdin) = None →
  Start_err (spawn w cmdName args stdin) = None →
  ReadHeader (spawn w cmdName args stdin) = (hdr, Some err) →
  is_EOF err = false →
  run s cmdName args stdin w
  = ({| module.Reason :=
          Some {| exterrors.Code := 450;
                  exterrors.EnhancedCode := (0, 0, 0);
                  exterrors.Message := "Internal server error";
                  exterrors.CheckName := "command";
                  exterrors.Err := Some err;
                  exterrors.Reason := "";
                  exterrors.Misc :=
                    {[ "cmd" := exterrors.MStr (Cmd_String cmdName args) ]}
               |};
        module.Reject := true;
        module.Quarantine := false;
        module.Header := [] |},
     w ++ [ {| inv_name := cmdName; inv_args := args;
               inv_stdin := stdin |} ]).
Proof.
  intros Hpipe Hstart Hread Heof. unfold run.
  rewrite Hpipe, Hstart, Hread. cbn [not_EOF]. by rewrite Heof.
Qed.

(** X12.  The decisions of [run] are of three kinds, each with its
    condition.  When the header block was read and the wait returned no
    error, it is the header block alone.  When the block was read and the
    wait returned an exit error whose code has an entry in the table, it is
    the action of that entry applied to the rejection with code 550.  In
    every other case (the block was not read, or the wait returned an error
    that is not an exit error or whose code has no entry) it is an
    infrastructure failure: a rejection with code 450 that carries the
    command line and does not quarantine. *)
Theorem run_decisions `{E : Env} (s : state) (cmdName : string)
  (args : list string) (stdin : Stdin) (w : World) :
  let child := spawn w cmdName args stdin in
  let decision := (run s cmdName args stdin w).1 in
  (header_parsed child = true →
   cmd_Wait (ended child) = None →
   decision
   = {| module.Reason := None; module.Reject := false;
        module.Quarantine := false;
        module.Header := (ReadHeader child).1 |})
  ∧ (∀ ps action,
       header_parsed child = true →
       cmd_Wait (ended child) = Some (ExitError ps) →
       actions (c s) !! ExitCode ps = Some action →
       decision
       = Apply action
           {| module.Reason :=
                Some (policy_rejection (Cmd_String cmdName args)
                        (ExitCode ps));
              module.Reject := false;
              module.Quarantine := false;
              module.Header := (ReadHeader child).1 |})
  ∧ (header_parsed child = false
     ∨ (∃ err, cmd_Wait (ended child) = Some err
               ∧ ∀ ps, err = ExitError ps →
                       actions (c s) !! ExitCode ps = None) →
     infrastructure_failure (Cmd_String cmdName args) decision = true
     ∧ exterrors.Code <$> module.Reason decision = Some 450
     ∧ module.Reject decision = true
     ∧ module.Quarantine decision = false).
Proof.
  intros child decision. unfold decision. split; [|split].
  - intros Hparsed Hwait. rewrite run_parsed by done. fold child.
    by rewrite Hwait.
  - intros ps action Hparsed Hwait Hlook. rewrite run_parsed by done.
    fold child. rewrite Hwait. cbn [fst]. unfold errorRes.
    by rewrite Hlook.
  - assert (∀ e res,
              module.Quarantine res = false →
              let d := set_Reject
                         (set_Reason res
                            (internal_error e (Cmd_String cmdName args))) in
              infrastructure_failure (Cmd_String cmdName args) d = true
              ∧ exterrors.Code <$> module.Reason d = Some 450
              ∧ module.Reject d = true
              ∧ module.Quarantine d = false) as Hinternal.
    { intros e res Hq. unfold infrastructure_failure. cbn.
      repeat split; [|done].
      apply bool_decide_eq_true_2, lookup_singleton_eq. }
    destruct (header_parsed child) eqn:Hparsed.
    + intros [?|(err & Hwait & Hnone)]; [done|].
      rewrite run_parsed by done. fold child. rewrite Hwait. cbn [fst].
      unfold errorRes.
      destruct err as [ps| |msg]; [|by apply Hinternal..].
      rewrite (Hnone ps eq_refl). unfold infrastructure_failure. cbn.
      repeat split. apply bool_decide_eq_true_2.
      by rewrite lookup_insert_ne, lookup_singleton_eq.
    + intros _. unfold header_parsed in Hparsed. unfold run. fold child.
      destruct (StdoutPipe_err child).
      { cbn [fst]. by apply (Hinternal _ module.empty). }
      destruct (Start_err child).
      { cbn [fst]. by apply (Hinternal _ module.empty). }
      destruct (ReadHeader child) as [hdr herr]. cbn [snd] in Hparsed.
      destruct (not_EOF herr); [|done].
      cbn [fst]. by apply (Hinternal _ module.empty).
Qed.

(** ** The stage methods as one pipeline *)

Section Pipeline.

Context `{E : Env}.

(** The state a method leaves is the one it recorded the event in. *)
Lemma deliver_record (s : state) (e : Event) (w : World) :
  (deliver s e w).1.1 = record_event s e.
Proof. destruct e; open_method; by split_method. Qed.

(** At its stage a method runs the command of the check on the arguments
    expanded in the recorded state. *)
Lemma deliver_matching (s : state) (e : Event) (stdin : Stdin) (w : World) :
  stage (c s) = event_stage e →
  event_stdin e = Some stdin →
  deliver s e w
  = (record_event s e,
     (run (record_event s e) (cmd (c s))
        (map (expandArg (record_event s e) (event_address e))
           (cmdArgs (c s)))
        stdin w).1,
     (run (record_event s e) (cmd (c s))
        (map (expandArg (record_event s e) (event_address e))
           (cmdArgs (c s)))
        stdin w).2).
Proof.
  intros Hstage Hstdin.
  destruct e as [|addr|addr|hdr [content|err]]; simplify_eq/=;
    open_method; rewrite Hstage; cbn [String.eqb negb Ascii.eqb Bool.eqb];
    cbn [Open record_event event_address];
    by destruct (run _ _ _ _ _).
Qed.

Lemma deliver_all_record (s : state) (es : list Event) (w : World) :
  (deliver_all s es w).1.1 = foldl record_event s es.
Proof.
  revert s w. induction es as [|e es IH]; intros s w; [done|].
  cbn [deliver_all foldl]. pose proof (deliver_record s e w) as Hrec.
  destruct (deliver s e w) as [[s1 res] w1]. cbn [fst] in Hrec. subst s1.
  specialize (IH (record_event s e) w1).
  by destruct (deliver_all (record_event s e) es w1) as [[s2 rs] w2].
Qed.

Lemma deliver_all_idle (s : state) (es : list Event) (w : World) :
  Forall (λ e, event_stage e ≠ stage (c s)) es →
  (deliver_all s es w).1.2 = replicate (length es) module.empty
  ∧ (deliver_all s es w).2 = w.
Proof.
  intros Hall. revert s w Hall.
  induction es as [|e es IH]; intros s w Hall; [done|].
  apply Forall_cons in Hall as [He Hes]. cbn [deliver_all].
  destruct (deliver_other_stage s e w) as [Hres Hw]; [done|].
  pose proof (deliver_c s e w) as Hc.
  destruct (deliver s e w) as [[s1 res] w1]. cbn [fst snd] in *. subst.
  destruct (IH s1 w) as [Hrs Hw2]; [by rewrite Hc|].
  destruct (deliver_all s1 es w) as [[s2 rs] w2]. cbn [fst snd] in *.
  by subst.
Qed.

End Pipeline.

Lemma foldl_record_event (s : state) (es : list Event) :
  c (foldl record_event s es) = c s
  ∧ msgMeta (foldl record_event s es) = msgMeta s
  ∧ rcpts (foldl record_event s es) = rcpts s ++ recipients es
  ∧ mailFrom (foldl record_event s es)
    = default (mailFrom s) (last (senders es)).
Proof.
  revert s. induction es as [|e es IH]; intros s.
  { cbn. by rewrite app_nil_r. }
  cbn [foldl]. destruct (IH (record_event s e)) as (Hc & Hm & Hr & Hf).
  rewrite Hc, Hm, Hr, Hf.
  destruct e as [|addr|addr|hdr body]; cbn [record_event c msgMeta rcpts
    mailFrom recipients senders omap]; repeat split; try done.
  - change (senders (EvSender addr :: es)) with (addr :: senders es).
    rewrite last_cons. by destruct (last _).
  - change (recipients (EvRcpt addr :: es)) with (addr :: recipients es).
    by rewrite <- app_assoc.
Qed.

Lemma Join_snoc (l : list string) (x sep : string) :
  l ≠ [] → Str.Join (l ++ [x]) sep = Str.Join l sep +:+ sep +:+ x.
Proof.
  induction l as [|e l IH]; [done|]. intros _.
  destruct l as [|e' l]; [done|].
  change (Str.Join ((e :: e' :: l) ++ [x]) sep)
    with (e +:+ sep +:+ Str.Join ((e' :: l) ++ [x]) sep).
  rewrite IH by done.
  change (Str.Join (e :: e' :: l) sep)
    with (e +:+ sep +:+ Str.Join (e' :: l) sep).
  by rewrite !StrFacts.app_assoc.
Qed.

(** X13.  The four methods are one pipeline.  Each first records its event
    in the state: the sender replaces the recorded one, a recipient is
    added after those recorded, connection and body record nothing.  At the
    configured stage it then runs the command of the check, which is never
    expanded itself, on the arguments expanded in that state with the
    address of the event (none for connection and body), on an empty input
    or, for the body, on the header followed by the opened body. *)
Theorem method_pipeline `{E : Env} (s : state) (e : Event) (w : World) :
  (deliver s e w).1.1 = record_event s e
  ∧ ∀ stdin,
      stage (c s) = event_stage e →
      event_stdin e = Some stdin →
      deliver s e w
      = (record_event s e,
         (run (record_event s e) (cmd (c s))
            (map (expandArg (record_event s e) (event_address e))
               (cmdArgs (c s)))
            stdin w).1,
         (run (record_event s e) (cmd (c s))
            (map (expandArg (record_event s e) (event_address e))
               (cmdArgs (c s)))
            stdin w).2).
Proof.
  split; [apply deliver_record|]. intros stdin. apply deliver_matching.
Qed.

(** X14.  The state of a transaction follows from its events alone,
    whatever the processes did: the check and the message metadata stay,
    the recipients are those recorded before followed by those of the
    events in order, and the sender is the one of the last sender event,
    or the one recorded before when there is none. *)
Theorem state_follows_events `{E : Env} (s : state) (es : list Event)
  (w : World) :
  (deliver_all s es w).1.1 = foldl record_event s es
  ∧ c (deliver_all s es w).1.1 = c s
  ∧ msgMeta (deliver_all s es w).1.1 = msgMeta s
  ∧ rcpts (deliver_all s es w).1.1 = rcpts s ++ recipients es
  ∧ mailFrom (deliver_all s es w).1.1
    = default (mailFrom s) (last (senders es)).
Proof.
  rewrite deliver_all_record. split; [done|]. apply foldl_record_event.
Qed.

(** X15.  Events of other stages than the configured one do nothing but
    record: over a transaction without an event of the configured stage,
    every decision is the empty one and nothing is started.  This is so for
    every event when the stage is none of the four names, as in a check
    that [New] made and [Init] did not configure. *)
Theorem other_stages_idle `{E : Env} (s : state) (es : list Event)
  (w : World) :
  Forall (λ e, event_stage e ≠ stage (c s)) es →
  (deliver_all s es w).1.2 = replicate (length es) module.empty
  ∧ (deliver_all s es w).2 = w.
Proof. apply deliver_all_idle. Qed.

(** X16.  From one recipient to the next the recipient list handed to the
    program grows by a line: after the method for [addr], the token
    [{rcpts}] is [addr] alone when no recipient was recorded, and else what
    it was before, a newline, and [addr]. *)
Theorem rcpts_grow_by_line `{E : Env} (s : state) (addr a1 a2 : string)
  (w : World) :
  expandArg (CheckRcpt s addr w).1.1 a2 "{rcpts}"
  = match rcpts s with
    | [] => addr
    | _ :: _ => expandArg s a1 "{rcpts}" +:+ String "010" "" +:+ addr
    end.
Proof.
  change (CheckRcpt s addr w) with (deliver s (EvRcpt addr) w).
  rewrite deliver_record, !expandArg_rcpts. cbn [record_event rcpts].
  destruct (rcpts s) as [|r rs] eqn:Hr; [done|].
  by rewrite Join_snoc.
Qed.

(** X17.  The program and the number of its arguments are fixed by the
    configuration: every process a method starts for a check made by [New]
    from the inline arguments has the first of them as its name and as many
    arguments as there are inline arguments after the first, whatever the
    addresses hold. *)
Theorem started_command_shape `{E : Env} (modName instName : string)
  (aliases inlineArgs : list string) (chk : Check) (run_on : Stage)
  (codes : list (Z * check.FailAction)) (s : state) (e : Event)
  (w : World) :
  New modName instName aliases inlineArgs = inl chk →
  c s = Init chk run_on codes →
  ∃ invs,
    (deliver s e w).2 = w ++ invs
    ∧ Forall (λ inv,
                head inlineArgs = Some (inv_name inv)
                ∧ length (inv_args inv) = length (tail inlineArgs)) invs.
Proof.
  intros HNew Hc.
  destruct inlineArgs as [|name args0]; [done|]. injection HNew as <-.
  destruct (decide (stage (c s) = event_stage e)) as [Hstage|Hstage].
  - destruct (event_stdin e) as [stdin|] eqn:Hstdin.
    + rewrite (deliver_matching s e stdin) by done. cbn [snd].
      rewrite run_world. destruct (StdoutPipe_err _).
      * exists []. by rewrite app_nil_r.
      * eexists. split; [reflexivity|]. apply Forall_singleton.
        cbn [inv_name inv_args]. rewrite Hc, length_map. done.
    + exists []. rewrite app_nil_r. split; [|done].
      destruct e as [| | |hdr [content|err]]; try done.
      cbn [deliver]. unfold CheckBody, expandCommand. cbn [Open].
      by destruct (negb _).
  - exists []. rewrite app_nil_r. split; [|done].
    by apply deliver_other_stage.
Qed.

(** ** The further properties at work *)

(** The token [{sender}] before other text. *)
Lemma placeholder_match_witness :
  Re.match_here "{sender} x" = Some ("{sender}", " x").
Proof.
  apply (proj2 (placeholder_match "{sender} x" "{sender}" " x")).
  exists "sender". repeat split; reflexivity.
Defined.

(** An argument with a closing brace and no opening one. *)
Lemma argument_without_braces_witness :
  expandArg (CheckStateForMsg (example_check StageBody [] []) example_meta)
    "a@x.test" "--from=sender}"
  = "--from=sender}".
Proof.
  apply (argument_without_braces
           (CheckStateForMsg (example_check StageBody [] []) example_meta)
           "a@x.test" "--from=sender}").
  left. reflexivity.
Defined.

(** The name of a token written with a hyphen. *)
Lemma malformed_token_witness :
  expandArg (CheckStateForMsg (example_check StageBody [] []) example_meta)
    "a@x.test" "{source-ip}"
  = "{source-ip}".
Proof.
  apply (malformed_token
           (CheckStateForMsg (example_check StageBody [] []) example_meta)
           "a@x.test" "source-ip");
    reflexivity.
Defined.

(** The directives [code 3 quarantine] and [code 7 reject]. *)
Lemma Init_unknown_ok_witness :
  (@Init_unknown example_parsers default_actions
     [ {| config.Name := "code"; config.Args := ["3"; "quarantine"] |};
       {| config.Name := "code"; config.Args := ["7"; "reject"] |} ]).2
  = None.
Proof.
  exact (f_equal snd
           (@Init_unknown_ok example_parsers
              (example_check StageBody [] []) StageBody
              [ {| config.Name := "code";
                   config.Args := ["3"; "quarantine"] |};
                {| config.Name := "code"; config.Args := ["7"; "reject"] |} ]
              [ (3, {| check.Quarantine := true; check.Reject := false;
                       check.ReasonOverride := None |});
                (7, reject_action) ]
              ltac:(repeat constructor))).
Defined.

(** The same directives with a directive [timeout] between them: the
    entry for 3 is in the table, the entry for 7 is not. *)
Lemma Init_unknown_error_witness :
  let result :=
    @Init_unknown example_parsers default_actions
      [ {| config.Name := "code"; config.Args := ["3"; "quarantine"] |};
        {| config.Name := "timeout"; config.Args := ["5s"] |};
        {| config.Name := "code"; config.Args := ["7"; "reject"] |} ] in
  result.2 = Some (Failure "unexpected directive: %v")
  ∧ is_Some (result.1 !! 3)
  ∧ result.1 !! 7 = None.
Proof.
  intros result.
  assert (result
          = (actions
               (example_check StageBody []
                  [ (3, {| check.Quarantine := true; check.Reject := false;
                           check.ReasonOverride := None |}) ]),
             Some (Failure "unexpected directive: %v"))) as ->.
  { exact (@Init_unknown_error example_parsers
             (example_check StageBody [] []) StageBody
             [ {| config.Name := "code";
                  config.Args := ["3"; "quarantine"] |} ]
             [ (3, {| check.Quarantine := true; check.Reject := false;
                      check.ReasonOverride := None |}) ]
             {| config.Name := "timeout"; config.Args := ["5s"] |}
             [ {| config.Name := "code"; config.Args := ["7"; "reject"] |} ]
             (Failure "unexpected directive: %v")
             ltac:(repeat constructor) eq_refl). }
  split; [reflexivity|]. split; [by eexists|reflexivity].
Defined.

(** The directive [code 3 reject] and a child that exits with 3. *)
Lemma directive_applied_witness :
  module.Reject
    (@run (const_env (silent_child (Reaped (Exited 3))))
       (CheckStateForMsg (example_check StageBody [] [(3, reject_action)])
          example_meta)
       "/bin/check" [] NoInput []).1
  = true.
Proof.
  unfold example_check.
  rewrite (@directive_applied
             (const_env (silent_child (Reaped (Exited 3))))
             {| instName := "filter"; stage := "";
                actions := default_actions; cmd := "/bin/check";
                cmdArgs := [] |}
             StageBody [(3, reject_action)] example_meta
             "/bin/check" [] NoInput [] 3 reject_action);
    [reflexivity | reflexivity | reflexivity | discriminate | reflexivity].
Defined.

(** A child for which the pipe cannot be created. *)
Lemma setup_failure_witness :
  (@run (const_env {| StdoutPipe_err := Some (Failure "too many open files");
                      Start_err := None; ReadHeader := no_output;
                      ended := Reaped (Exited 0) |})
     (CheckStateForMsg (example_check StageBody [] []) example_meta)
     "/bin/check" [] NoInput []).2
  = [].
Proof.
  rewrite (proj1 (@setup_failure
                    (const_env
                       {| StdoutPipe_err :=
                            Some (Failure "too many open files");
                          Start_err := None; ReadHeader := no_output;
                          ended := Reaped (Exited 0) |})
                    (CheckStateForMsg (example_check StageBody [] [])
                       example_meta)
                    "/bin/check" [] NoInput []
                    (Failure "too many open files")));
    reflexivity.
Defined.

(** A child that writes a malformed header and exits with 0. *)
Lemma malformed_header_witness :
  module.Reject
    (@run (const_env {| StdoutPipe_err := None; Start_err := None;
                        ReadHeader :=
                          ([("X-Checked", "yes")],
                           Some (Failure "malformed MIME header line"));
                        ended := Reaped (Exited 0) |})
       (CheckStateForMsg (example_check StageBody [] []) example_meta)
       "/bin/check" [] NoInput []).1
  = true.
Proof.
  rewrite (@malformed_header
             (const_env {| StdoutPipe_err := None; Start_err := None;
                           ReadHeader :=
                             ([("X-Checked", "yes")],
                              Some (Failure "malformed MIME header line"));
                           ended := Reaped (Exited 0) |})
             (CheckStateForMsg (example_check StageBody [] []) example_meta)
             "/bin/check" [] NoInput [] [("X-Checked", "yes")]
             (Failure "malformed MIME header line"));
    reflexivity.
Defined.

(** The body stage with a body that opens: the child gets the header and
    the body, and the message identifier as its argument. *)
Lemma method_pipeline_witness :
  (@deliver (const_env (silent_child (Reaped (Exited 0))))
     (CheckStateForMsg (example_check StageBody ["-i"; "{msg_id}"] [])
        example_meta)
     (EvBody [("Subject", "hello")] (Readable "text")) []).2
  = [ {| inv_name := "/bin/check"; inv_args := ["-i"; "4f2a"];
         inv_stdin := HeaderThenBody [("Subject", "hello")] "text" |} ].
Proof.
  rewrite (proj2 (@method_pipeline
                    (const_env (silent_child (Reaped (Exited 0))))
                    (CheckStateForMsg
                       (example_check StageBody ["-i"; "{msg_id}"] [])
                       example_meta)
                    (EvBody [("Subject", "hello")] (Readable "text")) [])
             (HeaderThenBody [("Subject", "hello")] "text"));
    reflexivity.
Defined.

(** A check that [New] made and [Init] did not configure. *)
Lemma other_stages_idle_witness :
  (@deliver_all (const_env (silent_child (Reaped (Exited 1))))
     (CheckStateForMsg
        {| instName := "filter"; stage := ""; actions := default_actions;
           cmd := "/bin/check"; cmdArgs := [] |}
        example_meta)
     [EvConnection; EvSender "s@x.test"; EvRcpt "a@x.test";
      EvBody [] (Readable "text")] []).2
  = [].
Proof.
  apply (@other_stages_idle (const_env (silent_child (Reaped (Exited 1))))
           (CheckStateForMsg
              {| instName := "filter"; stage := "";
                 actions := default_actions; cmd := "/bin/check";
                 cmdArgs := [] |}
              example_meta)
           [EvConnection; EvSender "s@x.test"; EvRcpt "a@x.test";
            EvBody [] (Readable "text")] []).
  repeat constructor; discriminate.
Defined.

(** The inline arguments [/bin/check -a {address}] and a recipient with a
    space in its address. *)
Lemma started_command_shape_witness :
  ∃ invs,
    (@deliver (const_env (silent_child (Reaped (Exited 0))))
       (CheckStateForMsg
          (Init {| instName := "filter"; stage := "";
                   actions := default_actions; cmd := "/bin/check";
                   cmdArgs := ["-a"; "{address}"] |} StageRcpt [])
          example_meta)
       (EvRcpt "a b@x.test") []).2 = [] ++ invs
    ∧ Forall (λ inv,
                head ["/bin/check"; "-a"; "{address}"]
                = Some (inv_name inv)
                ∧ length (inv_args inv)
                  = length (tail ["/bin/check"; "-a"; "{address}"])) invs.
Proof.
  exact (@started_command_shape
           (const_env (silent_child (Reaped (Exited 0))))
           "command" "filter" [] ["/bin/check"; "-a"; "{address}"]
           _ StageRcpt []
           (CheckStateForMsg
              (Init {| instName := "filter"; stage := "";
                       actions := default_actions; cmd := "/bin/check";
                       cmdArgs := ["-a"; "{address}"] |} StageRcpt [])
              example_meta)
           (EvRcpt "a b@x.test") [] eq_refl eq_refl).
Defined.

(** The directives [code 3 quarantine] and [code 3 reject] for the command
    [/bin/check]: [Init] returns no error and the entry for 3 is the
    second action. *)
Lemma Init_table_witness :
  ∃ codes,
    (@Check_Init example_parsers example_system
       {| instName := "filter"; stage := ""; actions := default_actions;
          cmd := "/bin/check"; cmdArgs := [] |}
       {| stage_stored := StageRcpt;
          unknown_nodes :=
            [ {| config.Name := "code";
                 config.Args := ["3"; "quarantine"] |};
              {| config.Name := "code"; config.Args := ["3"; "reject"] |} ];
          Process_err := None |}).1
    = Init {| instName := "filter"; stage := "";
              actions := default_actions; cmd := "/bin/check";
              cmdArgs := [] |} StageRcpt codes
    ∧ directive_for 3 codes = Some reject_action.
Proof.
  destruct (proj2 (proj2
    (@Init_table example_parsers example_system
       {| instName := "filter"; stage := ""; actions := default_actions;
          cmd := "/bin/check"; cmdArgs := [] |}
       {| stage_stored := StageRcpt;
          unknown_nodes :=
            [ {| config.Name := "code";
                 config.Args := ["3"; "quarantine"] |};
              {| config.Name := "code"; config.Args := ["3"; "reject"] |} ];
          Process_err := None |})) eq_refl)
    as (codes & Hall & Hinit & _).
  exists codes. split; [exact Hinit|].
  apply Forall2_cons_inv_l in Hall as (ca1 & rest1 & H1 & Hall & ->).
  apply Forall2_cons_inv_l in Hall as (ca2 & rest2 & H2 & Hall & ->).
  apply Forall2_nil_inv_l in Hall as ->.
  injection H1 as <-. injection H2 as <-. reflexivity.
Defined.

(** A child that exits with 0 after its header block, and the same child
    when the pipe cannot be created. *)
Lemma run_decisions_witness :
  (@run (const_env (child_ending [("X-Checked", "yes")]
                      (Reaped (Exited 0))))
     (CheckStateForMsg (example_check StageBody [] []) example_meta)
     "/bin/check" [] NoInput []).1
  = {| module.Reason := None; module.Reject := false;
       module.Quarantine := false;
       module.Header := [("X-Checked", "yes")] |}
  ∧ module.Reject
      (@run (const_env {| StdoutPipe_err := Some (Failure "pipe");
                          Start_err := None;
                          ReadHeader := ([("X-Checked", "yes")], None);
                          ended := Reaped (Exited 0) |})
         (CheckStateForMsg (example_check StageBody [] []) example_meta)
         "/bin/check" [] NoInput []).1
    = true.
Proof.
  split.
  - exact (proj1
             (@run_decisions
                (const_env (child_ending [("X-Checked", "yes")]
                              (Reaped (Exited 0))))
                (CheckStateForMsg (example_check StageBody [] [])
                   example_meta)
                "/bin/check" [] NoInput [])
             eq_refl eq_refl).
  - exact (proj1 (proj2 (proj2
             (proj2 (proj2
                (@run_decisions
                   (const_env
                      {| StdoutPipe_err := Some (Failure "pipe");
                         Start_err := None;
                         ReadHeader := ([("X-Checked", "yes")], None);
                         ended := Reaped (Exited 0) |})
                   (CheckStateForMsg (example_check StageBody [] [])
                      example_meta)
                   "/bin/check" [] NoInput []))
                (or_introl eq_refl))))).
Defined.
